(** * Job matcher / CV rater: ingestion pipeline and matching engine

    A shallow embedding of the non-GUI logic of [main.py]:
    [convert_pdf_to_images], [get_text_from_image_data],
    [parse_cv_skills_and_experience], [rate_cv_suitability] and the
    methods [_process_document_to_text_list], [_run_cv_processing] and
    [_run_matching_and_rating] of [JobMatcherApp].

    Conventions.
    - A Python [str] is a [string]; a character is a code point below 256,
      on which [str.isspace], the regex classes [\s] and [\d] and
      [str.lower] are given exactly.
    - The external collaborators (PyMuPDF, the file system, the three
      Gemini calls) are fields of a record [world].  Each call is recorded
      in a trace of [event]s and its outcome may depend on the trace so far,
      so that a service need not answer the same question twice the same way.
    - Python exceptions are the [Raise] outcomes of a small state-and-error
      monad [M]; [try ... except Exception] is [try_except].
    - Status-label updates, [print] and message boxes are not modelled. *)

From Stdlib Require Import List String Ascii ZArith NArith Lia Bool.
From Stdlib Require Strings.Byte.
From Stdlib Require DecimalString.
From Stdlib Require Import Sorting.Sorted Sorting.Permutation.
Import ListNotations.

Local Open Scope string_scope.
Local Open Scope list_scope.

(** ** Python string primitives *)

Module PyStr.

Definition code (c : ascii) : N := N_of_ascii c.

(** [str.isspace] on one character, which is also the regex class [\s]. *)
Definition isspace (c : ascii) : bool :=
  let n := code c in
  (((9 <=? n) && (n <=? 13)) || ((28 <=? n) && (n <=? 32))
   || (n =? 133) || (n =? 160))%N.

(** The regex class [\d]. *)
Definition isdigit (c : ascii) : bool :=
  let n := code c in ((48 <=? n) && (n <=? 57))%N.

Definition digit_value (c : ascii) : Z := (Z.of_N (code c) - 48)%Z.

Definition lower_char (c : ascii) : ascii :=
  let n := code c in
  if (((65 <=? n) && (n <=? 90))
      || ((192 <=? n) && (n <=? 222) && negb (n =? 215)))%N
  then ascii_of_N (n + 32) else c.

(** [s.lower()] *)
Fixpoint lower (s : string) : string :=
  match s with
  | EmptyString => EmptyString
  | String c s' => String (lower_char c) (lower s')
  end.

Fixpoint all (f : ascii -> bool) (s : string) : bool :=
  match s with
  | EmptyString => true
  | String c s' => f c && all f s'
  end.

(** The rest of [s] after the prefix [p], when [s.startswith(p)]. *)
Fixpoint strip_prefix (p s : string) : option string :=
  match p with
  | EmptyString => Some s
  | String a p' =>
      match s with
      | EmptyString => None
      | String b s' => if Ascii.eqb a b then strip_prefix p' s' else None
      end
  end.

Fixpoint drop_while (f : ascii -> bool) (s : string) : string :=
  match s with
  | EmptyString => EmptyString
  | String c s' => if f c then drop_while f s' else s
  end.

Fixpoint take_while (f : ascii -> bool) (s : string) : string :=
  match s with
  | EmptyString => EmptyString
  | String c s' => if f c then String c (take_while f s') else EmptyString
  end.

Definition lstrip (s : string) : string := drop_while isspace s.

Fixpoint rstrip (s : string) : string :=
  match s with
  | EmptyString => EmptyString
  | String c s' =>
      match rstrip s' with
      | EmptyString => if isspace c then EmptyString else String c EmptyString
      | r => String c r
      end
  end.

(** [s.strip()] *)
Definition strip (s : string) : string := rstrip (lstrip s).

(** The text after the leftmost occurrence of [needle] in [s]. *)
Fixpoint find_after (needle s : string) : option string :=
  match strip_prefix needle s with
  | Some r => Some r
  | None =>
      match s with
      | EmptyString => None
      | String _ s' => find_after needle s'
      end
  end.

(** [needle in s] *)
Definition contains (needle s : string) : bool :=
  match find_after needle s with Some _ => true | None => false end.

(** [s.split(sep)] for a one-character separator; never empty. *)
Fixpoint split_char (sep : ascii) (s : string) : list string :=
  match s with
  | EmptyString => [EmptyString]
  | String c s' =>
      if Ascii.eqb c sep then EmptyString :: split_char sep s'
      else match split_char sep s' with
           | [] => [String c EmptyString]
           | h :: t => String c h :: t
           end
  end.

(** [s.endswith(suffix)] *)
Definition endswith (suffix s : string) : bool :=
  (length suffix <=? length s)%nat
  && String.eqb (substring (length s - length suffix) (length suffix) s) suffix.

(** [sep.join(l)] *)
Definition join (sep : string) (l : list string) : string := String.concat sep l.

(** A non-empty [str] is truthy. *)
Definition truthy (s : string) : bool :=
  match s with EmptyString => false | String _ _ => true end.

(** Decimal value of a run of digits, most significant first. *)
Fixpoint decimal (acc : Z) (s : string) : Z :=
  match s with
  | EmptyString => acc
  | String c s' => decimal (10 * acc + digit_value c) s'
  end.

End PyStr.

(** ** The reply parser of [rate_cv_suitability] *)

(** [re.search(r"PERCENTAGE:\s*(\d+)%", text)].  [\s], [\d] and ["%"] are
    pairwise disjoint, so the greedy run of white space followed by the
    greedy run of digits is the only way the pattern can match at a given
    position: backtracking never finds another one (see
    [percentage_here_unique]). *)
Definition percentage_here (s : string) : option string :=
  match PyStr.strip_prefix "PERCENTAGE:" s with
  | None => None
  | Some r =>
      let r1 := PyStr.drop_while PyStr.isspace r in
      let ds := PyStr.take_while PyStr.isdigit r1 in
      match ds, PyStr.drop_while PyStr.isdigit r1 with
      | String _ _, String "%" _ => Some ds
      | _, _ => None
      end
  end.

(** Leftmost match; the result is [group(1)]. *)
Fixpoint search_percentage (text : string) : option string :=
  match percentage_here text with
  | Some ds => Some ds
  | None =>
      match text with
      | EmptyString => None
      | String _ text' => search_percentage text'
      end
  end.

(** The search for the literal JUSTIFICATION: followed by optional white
    space and a group of any characters, under [re.DOTALL]: the group runs
    from the first character that is not white space to the end of the
    text. *)
Definition search_justification (text : string) : option string :=
  match PyStr.find_after "JUSTIFICATION:" text with
  | Some r => Some (PyStr.drop_while PyStr.isspace r)
  | None => None
  end.

(** ** Outcomes, events and the world *)

Definition bytes := list Init.Byte.byte.

Inductive result (A : Type) : Type :=
| Ok (a : A)
| Raise (e : string).
Arguments Ok {A} a.
Arguments Raise {A} e.

(** What [model.generate_content(prompt)] followed by [response.text]
    comes to: an exception from either, a falsy response, or the text. *)
Inductive reply : Type :=
| Raises (e : string)
| Falsy
| Text (t : string).

(** A part of a vision candidate: [Some t] when it has a [text]
    attribute. *)
Definition part := option string.

(** The vision call: an exception, a falsy response, or the list
    [response.candidates], each candidate given by its [content.parts]. *)
Inductive vision_reply : Type :=
| VRaises (e : string)
| VFalsy
| VCandidates (cs : list (list part)).

(** An opened PDF: one rendering outcome per page ([load_page],
    [get_pixmap], [pil_tobytes]) and the outcome of [doc.close()];
    [doc.page_count] is the number of pages. *)
Record pdf_document : Type := {
  pages : list (result bytes);
  close : result unit
}.

Definition page_count (doc : pdf_document) : nat := List.length (pages doc).

Inductive event : Type :=
| FitzOpen (pdf_path : string)
| FileRead (file_path : string)
| VisionCall (image_data : bytes)
| ParseCvCall (cv_text : string)
| RateCall (job_requirements_parsed cv_info_parsed : string).

Definition trace := list event.

Record world : Type := {
  fitz_open : trace -> string -> result pdf_document;
  file_read : trace -> string -> result bytes;
  vision_model : trace -> bytes -> vision_reply;
  parse_cv_model : trace -> string -> reply;
  rate_model : trace -> string -> string -> reply;
  (** [sys.get_int_max_str_digits()]; 0 switches the limit off. *)
  int_max_str_digits : nat
}.

(** ** The monad: a trace of calls, and exceptions *)

Definition M (A : Type) : Type := trace -> result A * trace.

Definition ret {A} (a : A) : M A := fun t => (Ok a, t).

Definition bind {A B} (m : M A) (k : A -> M B) : M B :=
  fun t => match m t with
           | (Ok a, t') => k a t'
           | (Raise e, t') => (Raise e, t')
           end.

Definition raise {A} (e : string) : M A := fun t => (Raise e, t).

Definition lift {A} (r : result A) : M A := fun t => (r, t).

(** [try: body  except Exception as e: handler e] *)
Definition try_except {A} (body : M A) (handler : string -> M A) : M A :=
  fun t => match body t with
           | (Ok a, t') => (Ok a, t')
           | (Raise e, t') => handler e t'
           end.

(** An external call: its outcome is read off the world at the current
    trace, and the call is appended to the trace. *)
Definition call {A} (ev : event) (outcome : trace -> A) : M A :=
  fun t => (Ok (outcome t), t ++ [ev]).

Declare Scope monad_scope.
Delimit Scope monad_scope with monad.
Notation "x <- m ;; k" := (bind m (fun x => k))
  (at level 61, m at next level, right associativity) : monad_scope.
Local Open Scope monad_scope.

(** ** The program *)

Definition newline : string := String (ascii_of_nat 10) EmptyString.

(** The page separator of [_process_document_to_text_list]: two line
    feeds. *)
Definition page_separator : string := (newline ++ newline)%string.

(** [max(0, min(100, score))] *)
Definition clamp (score : Z) : Z := Z.max 0 (Z.min 100 score).

(** [self.cv_data]: a [dict], which keeps its keys in insertion order. *)
Record cv_info : Type := {
  text_raw : string;
  parsed_info : string
}.

Definition dict := list (string * cv_info).

(** [d[k] = v]: an existing key keeps its place, a new one goes last. *)
Fixpoint dict_set (k : string) (v : cv_info) (d : dict) : dict :=
  match d with
  | [] => [(k, v)]
  | (k', v') :: d' =>
      if String.eqb k' k then (k', v) :: d' else (k', v') :: dict_set k v d'
  end.

Fixpoint dict_get (k : string) (d : dict) : option cv_info :=
  match d with
  | [] => None
  | (k', v') :: d' => if String.eqb k' k then Some v' else dict_get k d'
  end.

(** An entry of [self.cv_ratings]. *)
Record rating : Type := {
  filename : string;
  score : Z;
  justification : string
}.

(** The locals of the loop of [_run_matching_and_rating]. *)
Record match_state : Type := {
  cv_ratings : list rating;
  max_score : Z;
  most_suitable_cv_info : option rating
}.

(** [cv_ratings.sort(key=lambda x: x['score'], reverse=True)].  The
    built-in sort is stable, also under [reverse=True]; it is modelled by
    the stable insertion sort, and [sort_by_score_desc_unique] shows that
    being sorted and stable determines the outcome. *)
Fixpoint insert_desc (x : rating) (l : list rating) : list rating :=
  match l with
  | [] => [x]
  | y :: l' => if (score x <? score y)%Z then y :: insert_desc x l' else x :: l
  end.

Definition sort_by_score_desc (l : list rating) : list rating :=
  fold_right insert_desc [] l.

(** The argument of [_process_document_to_text_list]: one path ([str]) or
    a [list] of paths. *)
Inductive file_arg : Type :=
| OnePath (file_path : string)
| PathList (file_paths : list string).

Definition skipped_justification : string :=
  "Skipped due to failed text/profile extraction.".

Section Program.

Variable w : world.

(** The loop of [convert_pdf_to_images] over the pages of the document. *)
Fixpoint render_pages (rs : list (result bytes)) (image_bytes_list : list bytes)
  : result (list bytes) :=
  match rs with
  | [] => Ok image_bytes_list
  | Ok img_data :: rs' => render_pages rs' (image_bytes_list ++ [img_data])
  | Raise e :: _ => Raise e
  end.

Definition convert_pdf_to_images (pdf_path : string) : M (list bytes) :=
  try_except
    (opened <- call (FitzOpen pdf_path) (fun t => fitz_open w t pdf_path) ;;
     doc <- lift opened ;;
     image_bytes_list <- lift (render_pages (pages doc) []) ;;
     closed <- lift (close doc) ;;
     ret image_bytes_list)
    (fun e => ret []).

(** [[part.text for part in parts if hasattr(part, 'text')]] *)
Definition text_parts (parts : list part) : list string :=
  flat_map (fun p => match p with Some t => [t] | None => [] end) parts.

Definition get_text_from_image_data (image_data : bytes) : M string :=
  try_except
    (response <- call (VisionCall image_data)
                      (fun t => vision_model w t image_data) ;;
     match response with
     | VRaises e => raise e
     | VCandidates (c :: _) => ret (PyStr.join "" (text_parts c))
     | VCandidates [] => ret ""
     | VFalsy => ret ""
     end)
    (fun e => ret "").

(** The prompt carries [cv_text[:6000]]. *)
Definition parse_cv_skills_and_experience (cv_text : string) : M string :=
  let prompt_text := substring 0 6000 cv_text in
  try_except
    (response <- call (ParseCvCall prompt_text)
                      (fun t => parse_cv_model w t prompt_text) ;;
     match response with
     | Raises e => raise e
     | Falsy => ret "Could not parse CV."
     | Text t => ret t
     end)
    (fun e => ret ("Error parsing CV: " ++ e)%string).

(** [int(s)] on a group matched by [\d+], the only strings it is applied
    to: the value of the digits, unless the literal is longer than the
    interpreter's limit, which is 0 (off) or at least the check threshold
    640; then [ValueError] is raised.  (On other strings the model raises,
    which the program never observes.) *)
Definition py_int (s : string) : result Z :=
  let limit := int_max_str_digits w in
  if ((0 <? limit) && (Nat.max limit 640 <? length s))%nat
  then Raise "Exceeds the limit for integer string conversion"
  else if PyStr.all PyStr.isdigit s && PyStr.truthy s
       then Ok (PyStr.decimal 0 s)
       else Raise "invalid literal for int() with base 10".

(** Lines 141-157 of [rate_cv_suitability]: score and justification read
    off the reply text. *)
Definition parse_reply (text : string) : Z * string :=
  let score0 :=
    match search_percentage text with
    | Some group1 =>
        match py_int group1 with
        | Ok n => clamp n
        | Raise _ => 0%Z
        end
    | None => 0%Z
    end in
  let justification0 :=
    match search_justification text with
    | Some group1 => PyStr.strip group1
    | None => "N/A - No justification provided."
    end in
  (score0, justification0).

Definition rate_cv_suitability (job_requirements_parsed cv_info_parsed : string)
  : M (Z * string) :=
  try_except
    (response <- call (RateCall job_requirements_parsed cv_info_parsed)
                      (fun t => rate_model w t job_requirements_parsed
                                           cv_info_parsed) ;;
     text <- match response with
             | Raises e => raise e
             | Falsy => ret ""
             | Text t => ret t
             end ;;
     ret (parse_reply text))
    (fun e => ret (0%Z, ("Error rating CV: " ++ e)%string)).

(** [file_path.lower().endswith('.pdf')] *)
Definition is_pdf (file_path : string) : bool :=
  PyStr.endswith ".pdf" (PyStr.lower file_path).

(** Lines 271-282: the page images of one file; [None] when the file
    cannot be read, where the method returns the empty string. *)
Definition load_images (file_path : string) : M (option (list bytes)) :=
  if is_pdf file_path then
    image_bytes_list <- convert_pdf_to_images file_path ;;
    ret (Some image_bytes_list)
  else
    try_except
      (r <- call (FileRead file_path) (fun t => file_read w t file_path) ;;
       data <- lift r ;;
       ret (Some [data]))
      (fun e => ret None).

(** Lines 285-289: one extraction per page image, appended in order. *)
Fixpoint extract_pages (image_bytes_list : list bytes)
    (all_text_pages : list string) : M (list string) :=
  match image_bytes_list with
  | [] => ret all_text_pages
  | img_bytes :: rest =>
      extracted_text <- get_text_from_image_data img_bytes ;;
      extract_pages rest (all_text_pages ++ [extracted_text])
  end.

Fixpoint process_files (files_to_process : list string) (is_single_file : bool)
    (all_text_pages : list string) : M string :=
  match files_to_process with
  | [] => ret (PyStr.join page_separator all_text_pages)
  | file_path :: rest =>
      loaded <- load_images file_path ;;
      match loaded with
      | None => ret ""
      | Some image_bytes_list =>
          all_text_pages' <- extract_pages image_bytes_list all_text_pages ;;
          if is_single_file
          then ret (PyStr.join page_separator all_text_pages')
          else process_files rest is_single_file all_text_pages'
      end
  end.

Definition _process_document_to_text_list (file_paths : file_arg)
    (is_single_file : bool) : M string :=
  let files_to_process :=
    match file_paths with
    | PathList l => l
    | OnePath p => [p]
    end in
  process_files files_to_process is_single_file [].

(** [file_path.split('/')[-1]] *)
Definition basename (file_path : string) : string :=
  last (PyStr.split_char "/" file_path) "".

Definition no_text_entry : cv_info :=
  {| text_raw := "Could not extract text."; parsed_info := "No text extracted." |}.

(** The body of the loop of [_run_cv_processing]. *)
Definition cv_step (new_cv_data : dict) (file_path : string) : M dict :=
  let fn := basename file_path in
  full_text <- _process_document_to_text_list (OnePath file_path) false ;;
  if PyStr.truthy (PyStr.strip full_text) then
    parsed <- parse_cv_skills_and_experience full_text ;;
    ret (dict_set fn {| text_raw := full_text; parsed_info := parsed |}
                  new_cv_data)
  else
    ret (dict_set fn no_text_entry new_cv_data).

Fixpoint cv_loop (file_paths : list string) (new_cv_data : dict) : M dict :=
  match file_paths with
  | [] => ret new_cv_data
  | file_path :: rest =>
      d <- cv_step new_cv_data file_path ;;
      cv_loop rest d
  end.

(** The result is the pair handed to [_update_cv_gui_after_processing],
    whose first component becomes [self.cv_data]. *)
Definition _run_cv_processing (file_paths : list string) : M (dict * nat) :=
  new_cv_data <- cv_loop file_paths [] ;;
  ret (new_cv_data, List.length file_paths).

(** The test of line 443. *)
Definition skipped (cv : cv_info) : bool :=
  negb (PyStr.truthy (parsed_info cv))
  || PyStr.contains "No text extracted" (parsed_info cv).

Definition skipped_rating (fn : string) : rating :=
  {| filename := fn; score := 0; justification := skipped_justification |}.

(** The body of the loop of [_run_matching_and_rating]. *)
Definition rate_step (job_ad_parsed : string) (st : match_state)
    (item : string * cv_info) : M match_state :=
  let (fn, cv) := item in
  if skipped cv then
    ret {| cv_ratings := cv_ratings st ++ [skipped_rating fn];
           max_score := max_score st;
           most_suitable_cv_info := most_suitable_cv_info st |}
  else
    r <- rate_cv_suitability job_ad_parsed (parsed_info cv) ;;
    let current_cv_rating :=
      {| filename := fn; score := fst r; justification := snd r |} in
    if (fst r >? max_score st)%Z then
      ret {| cv_ratings := cv_ratings st ++ [current_cv_rating];
             max_score := fst r;
             most_suitable_cv_info := Some current_cv_rating |}
    else
      ret {| cv_ratings := cv_ratings st ++ [current_cv_rating];
             max_score := max_score st;
             most_suitable_cv_info := most_suitable_cv_info st |}.

Fixpoint rate_loop (job_ad_parsed : string) (items : dict) (st : match_state)
  : M match_state :=
  match items with
  | [] => ret st
  | item :: rest =>
      st' <- rate_step job_ad_parsed st item ;;
      rate_loop job_ad_parsed rest st'
  end.

Definition initial_match_state : match_state :=
  {| cv_ratings := []; max_score := (-1)%Z; most_suitable_cv_info := None |}.

(** The result is the pair handed to [_update_results_gui]: the most
    suitable CV and the ranked list. *)
Definition _run_matching_and_rating (job_ad_parsed_info : string)
    (cv_data : dict) : M (option rating * list rating) :=
  st <- rate_loop job_ad_parsed_info cv_data initial_match_state ;;
  match cv_ratings st, most_suitable_cv_info st with
  | [], None => ret (None, [])
  | _, _ => ret (most_suitable_cv_info st, sort_by_score_desc (cv_ratings st))
  end.

End Program.

(** ** Where the percentage pattern matches *)

(** The regular expression matches [text] at offset [i] with group [ds]:
    the literal, a run of white space, a non-empty run of digits, a
    percent sign. *)
Definition percentage_at (text : string) (i : nat) (ds : string) : Prop :=
  exists pre ws post,
    text = (pre ++ "PERCENTAGE:" ++ ws ++ ds ++ "%" ++ post)%string /\
    length pre = i /\
    PyStr.all PyStr.isspace ws = true /\
    PyStr.all PyStr.isdigit ds = true /\
    ds <> "".

(** The leftmost match is at offset [i]. *)
Definition first_percentage_at (text : string) (i : nat) (ds : string) : Prop :=
  percentage_at text i ds /\
  forall j ds', (j < i)%nat -> ~ percentage_at text j ds'.

(** [int] accepts the literal: the limit is off or the literal is no longer
    than the limit. *)
Definition within_int_limit (w : world) (ds : string) : Prop :=
  int_max_str_digits w = 0%nat \/
  (length ds <= Nat.max (int_max_str_digits w) 640)%nat.

(** Descending by score. *)
Definition ranked_desc (l : list rating) : Prop :=
  StronglySorted (fun a b => (score b <= score a)%Z) l.

(** The ratings of score [s], in the order of the list. *)
Definition with_score (s : Z) (l : list rating) : list rating :=
  filter (fun r => (score r =? s)%Z) l.

(** ** Closed forms of the loops and of the service wrappers

    What each function of the program returns and which trace it leaves,
    written without the monad.  The lemmas named [..._run] below prove
    that the program computes exactly these. *)

Section ClosedForms.

Variable w : world.

(** What the call of the scoring service comes to, by its reply. *)
Definition rate_outcome (t : trace) (job cv : string) : Z * string :=
  match rate_model w t job cv with
  | Raises e => (0%Z, ("Error rating CV: " ++ e)%string)
  | Falsy => parse_reply w ""
  | Text text => parse_reply w text
  end.

(** What [convert_pdf_to_images] returns, by the outcomes of opening,
    rendering and closing. *)
Definition pdf_images (t : trace) (pdf_path : string) : list bytes :=
  match fitz_open w t pdf_path with
  | Raise _ => []
  | Ok doc =>
      match render_pages (pages doc) [] with
      | Raise _ => []
      | Ok image_bytes_list =>
          match close doc with
          | Raise _ => []
          | Ok _ => image_bytes_list
          end
      end
  end.

(** The event and the images of [load_images]. *)
Definition load_event (file_path : string) : event :=
  if is_pdf file_path then FitzOpen file_path else FileRead file_path.

Definition images_of (t : trace) (file_path : string) : option (list bytes) :=
  if is_pdf file_path then Some (pdf_images t file_path)
  else match file_read w t file_path with
       | Ok data => Some [data]
       | Raise _ => None
       end.

(** The text of one page image, extracted when the trace is [t]. *)
Definition page_text (t : trace) (image_data : bytes) : string :=
  match vision_model w t image_data with
  | VCandidates (c :: _) => PyStr.join "" (text_parts c)
  | _ => ""
  end.

(** The texts of the page images, in page order. *)
Fixpoint texts_from (t : trace) (image_bytes_list : list bytes) : list string :=
  match image_bytes_list with
  | [] => []
  | img :: rest => page_text t img :: texts_from (t ++ [VisionCall img]) rest
  end.

(** The pages of a document: none when it cannot be read. *)
Definition pages_of (t : trace) (file_path : string) : list bytes :=
  match images_of t file_path with
  | Some imgs => imgs
  | None => []
  end.

(** The raw text of one document and the trace its ingestion leaves. *)
Definition doc_text (t : trace) (file_path : string) : string :=
  PyStr.join page_separator
    (texts_from (t ++ [load_event file_path]) (pages_of t file_path)).

Definition doc_trace (t : trace) (file_path : string) : trace :=
  (t ++ [load_event file_path]) ++ map VisionCall (pages_of t file_path).

(** What the profile service call comes to, by its reply. *)
Definition parse_outcome (t : trace) (cv_text : string) : string :=
  match parse_cv_model w t (substring 0 6000 cv_text) with
  | Raises e => ("Error parsing CV: " ++ e)%string
  | Falsy => "Could not parse CV."
  | Text p => p
  end.

(** The entry stored for a document and the trace after it. *)
Definition entry_of (t : trace) (file_path : string) : cv_info :=
  if PyStr.truthy (PyStr.strip (doc_text t file_path))
  then {| text_raw := doc_text t file_path;
          parsed_info := parse_outcome (doc_trace t file_path)
                                       (doc_text t file_path) |}
  else no_text_entry.

Definition trace_of (t : trace) (file_path : string) : trace :=
  if PyStr.truthy (PyStr.strip (doc_text t file_path))
  then doc_trace t file_path
       ++ [ParseCvCall (substring 0 6000 (doc_text t file_path))]
  else doc_trace t file_path.

Variable job : string.

(** A candidate that reaches the scoring service. *)
Definition rated (item : string * cv_info) : bool := negb (skipped (snd item)).

(** The rating of a candidate scored when the trace is [t]. *)
Definition rating_of (t : trace) (fn : string) (cv : cv_info) : rating :=
  {| filename := fn;
     score := fst (rate_outcome t job (parsed_info cv));
     justification := snd (rate_outcome t job (parsed_info cv)) |}.

(** The ratings the loop appends, the trace it leaves and the best
    candidate it keeps, when it starts at trace [t]. *)
Fixpoint ratings_from (t : trace) (items : dict) : list rating :=
  match items with
  | [] => []
  | (fn, cv) :: rest =>
      if skipped cv then skipped_rating fn :: ratings_from t rest
      else rating_of t fn cv
           :: ratings_from (t ++ [RateCall job (parsed_info cv)]) rest
  end.

Fixpoint trace_after (t : trace) (items : dict) : trace :=
  match items with
  | [] => t
  | (fn, cv) :: rest =>
      if skipped cv then trace_after t rest
      else trace_after (t ++ [RateCall job (parsed_info cv)]) rest
  end.

Definition better (b : Z * option rating) (cur : rating) : Z * option rating :=
  if (score cur >? fst b)%Z then (score cur, Some cur) else b.

Fixpoint best_from (t : trace) (items : dict) (b : Z * option rating)
  : Z * option rating :=
  match items with
  | [] => b
  | (fn, cv) :: rest =>
      if skipped cv then best_from t rest b
      else best_from (t ++ [RateCall job (parsed_info cv)]) rest
                     (better b (rating_of t fn cv))
  end.

(** The invariant of the loop on [max_score] and
    [most_suitable_cv_info]. *)
Definition best_ok (b : Z * option rating) : Prop :=
  match snd b with
  | None => fst b = (-1)%Z
  | Some m => fst b = score m /\ (0 <= score m)%Z
  end.

End ClosedForms.

(** The rasterizer gives nothing for the document: the file cannot be
    read, or the conversion of the PDF returns the empty list. *)
Definition rasterization_fails (w : world) (t : trace) (file_path : string)
  : Prop :=
  exists t1, load_images w file_path t = (Ok None, t1) \/
             load_images w file_path t = (Ok (Some []), t1).

(** The raw text of the document is empty once stripped. *)
Definition no_extractable_text (w : world) (t : trace) (file_path : string)
  : Prop :=
  exists text t1,
    _process_document_to_text_list w (OnePath file_path) false t
    = (Ok text, t1) /\
    PyStr.strip text = "".

Definition is_parse_call (ev : event) : bool :=
  match ev with ParseCvCall _ => true | _ => false end.

(** ** Worlds for the examples *)


(** A world for the examples: no file can be opened, the vision and
    profile services answer nothing, and the scoring service answers by
    the candidate profile it is shown. *)
Definition mocked_rate (cv : string) : reply :=
  if String.eqb cv "profile A"
  then Text ("PERCENTAGE: 80%" ++ newline ++ "JUSTIFICATION: partial match")
  else if String.eqb cv "profile B"
  then Text ("PERCENTAGE: 95%" ++ newline ++ "JUSTIFICATION: strong match")
  else if String.eqb cv "profile C"
  then Text ("PERCENTAGE: 95%" ++ newline ++ "JUSTIFICATION: strong match too")
  else if String.eqb cv "profile Z"
  then Text ("PERCENTAGE: 0%" ++ newline ++ "JUSTIFICATION: no match")
  else Raises "503 service unavailable".

Definition mocked_world : world := {|
  fitz_open := fun _ _ => Raise "cannot open";
  file_read := fun _ _ => Raise "cannot read";
  vision_model := fun _ _ => VFalsy;
  parse_cv_model := fun _ _ => Falsy;
  rate_model := fun _ _ cv => mocked_rate cv;
  int_max_str_digits := 4300
|}.

Definition profile (p : string) : cv_info :=
  {| text_raw := "raw text"; parsed_info := p |}.

Definition page1 : bytes := [Init.Byte.x89; Init.Byte.x50; Init.Byte.x01].
Definition page2 : bytes := [Init.Byte.x89; Init.Byte.x50; Init.Byte.x02].

(** A world for the examples of ingestion: a PDF of two pages, a PDF
    whose second page cannot be rendered, two images of the same name in
    different folders, a profile service that is out of quota for one of
    them, and a scoring service with one answer. *)
Definition office_world : world := {|
  fitz_open := fun _ p =>
    if String.eqb p "cvs/bob.pdf"
    then Ok {| pages := [Ok page1; Ok page2]; close := Ok tt |}
    else if String.eqb p "cvs/torn.pdf"
    then Ok {| pages := [Ok page1; Raise "cannot load page 2"];
               close := Ok tt |}
    else Raise "cannot open";
  file_read := fun _ p =>
    if String.eqb p "inbox/jane.png" then Ok page1
    else if String.eqb p "archive/jane.png" then Ok page2
    else Raise "cannot read";
  vision_model := fun _ img =>
    match img with
    | [_; _; Init.Byte.x01] =>
        VCandidates [[Some "Jane Doe"; None; Some ", Python"]]
    | [_; _; Init.Byte.x02] => VCandidates [[Some "J. Doe, Java"]; []]
    | _ => VFalsy
    end;
  parse_cv_model := fun _ text =>
    if String.eqb text "Jane Doe, Python" then Raises "429 quota exceeded"
    else Text ("Skills of " ++ text);
  rate_model := fun _ _ _ =>
    Text ("PERCENTAGE: 40%" ++ newline ++ "JUSTIFICATION: little to go on");
  int_max_str_digits := 4300
|}.

(** ** Vocabulary for the further properties *)

(** [needle] occurs in [text] at offset [i]. *)
Definition occurs_at (needle text : string) (i : nat) : Prop :=
  exists pre post,
    text = (pre ++ needle ++ post)%string /\ length pre = i.

(** The leftmost occurrence of [needle] in [text] is followed by [rest]. *)
Definition first_followed_by (needle text rest : string) : Prop :=
  exists pre,
    text = (pre ++ needle ++ rest)%string /\
    forall j, (j < length pre)%nat -> ~ occurs_at needle text j.

(** Only white space, or nothing. *)
Definition blank (s : string) : bool := PyStr.all PyStr.isspace s.

(** White space at neither end. *)
Definition trimmed (s : string) : Prop :=
  PyStr.lstrip s = s /\ PyStr.rstrip s = s.

(** The distinct strings of a list, each at its first occurrence. *)
Fixpoint first_occurrences (l : list string) : list string :=
  match l with
  | [] => []
  | x :: l' =>
      x :: filter (fun y => negb (String.eqb x y)) (first_occurrences l')
  end.

(** No slash in the string. *)
Definition slash_free (s : string) : bool :=
  PyStr.all (fun c => negb (Ascii.eqb c "/")) s.

(** [k in d] *)
Definition has_key (k : string) (d : dict) : bool :=
  existsb (String.eqb k) (map fst d).

(** ** The application: its state and its handlers

    The attributes of [JobMatcherApp] that the handlers read or write:
    the four data attributes (named [self_...] here), the state of the
    three buttons, and the contents of the job-ad preview, of the box of
    the most suitable CV and of the list box.  The labels are write-only
    and left out, as are dialogs apart from the warnings of
    [_start_matching_thread].

    A handler that starts a thread returns the arguments of the thread.
    A thread is a function of the values it reads, and returns what it
    hands to the main thread with [root.after]: [_run_matching_and_rating]
    the arguments of [_update_results_gui], [_run_cv_processing] those of
    [_update_cv_gui_after_processing].  A callback is a function of the
    state in which it runs, and that is the state of the moment the main
    thread gets to it, not the state in which the thread was started: the
    upload handlers leave the buttons enabled, so other handlers and the
    callbacks of other threads may have run in between.  The theorems on
    callbacks therefore hold for every state.  [self.cv_ratings] is
    written by the matching thread alone; its callback gets the list as an
    argument. *)

Inductive button_state : Type := NORMAL | DISABLED.

Record JobMatcherApp : Type := {
  self_job_ad_text_raw : string;
  self_job_ad_parsed_info : string;
  self_cv_data : dict;
  self_cv_ratings : list rating;
  upload_job_ad_button : button_state;
  upload_cvs_button : button_state;
  match_cvs_button : button_state;
  job_ad_text_preview : string;
  most_suitable_cv_text : string;
  other_cvs_listbox : list string
}.

Definition set_job_ad (st : JobMatcherApp) (raw parsed : string)
  : JobMatcherApp :=
  {| self_job_ad_text_raw := raw;
     self_job_ad_parsed_info := parsed;
     self_cv_data := self_cv_data st;
     self_cv_ratings := self_cv_ratings st;
     upload_job_ad_button := upload_job_ad_button st;
     upload_cvs_button := upload_cvs_button st;
     match_cvs_button := match_cvs_button st;
     job_ad_text_preview := job_ad_text_preview st;
     most_suitable_cv_text := most_suitable_cv_text st;
     other_cvs_listbox := other_cvs_listbox st |}.

Definition set_cv_data (st : JobMatcherApp) (d : dict) : JobMatcherApp :=
  {| self_job_ad_text_raw := self_job_ad_text_raw st;
     self_job_ad_parsed_info := self_job_ad_parsed_info st;
     self_cv_data := d;
     self_cv_ratings := self_cv_ratings st;
     upload_job_ad_button := upload_job_ad_button st;
     upload_cvs_button := upload_cvs_button st;
     match_cvs_button := match_cvs_button st;
     job_ad_text_preview := job_ad_text_preview st;
     most_suitable_cv_text := most_suitable_cv_text st;
     other_cvs_listbox := other_cvs_listbox st |}.

Definition set_buttons (st : JobMatcherApp)
    (job_ad cvs matching : button_state) : JobMatcherApp :=
  {| self_job_ad_text_raw := self_job_ad_text_raw st;
     self_job_ad_parsed_info := self_job_ad_parsed_info st;
     self_cv_data := self_cv_data st;
     self_cv_ratings := self_cv_ratings st;
     upload_job_ad_button := job_ad;
     upload_cvs_button := cvs;
     match_cvs_button := matching;
     job_ad_text_preview := job_ad_text_preview st;
     most_suitable_cv_text := most_suitable_cv_text st;
     other_cvs_listbox := other_cvs_listbox st |}.

Definition set_preview (st : JobMatcherApp) (content : string)
  : JobMatcherApp :=
  {| self_job_ad_text_raw := self_job_ad_text_raw st;
     self_job_ad_parsed_info := self_job_ad_parsed_info st;
     self_cv_data := self_cv_data st;
     self_cv_ratings := self_cv_ratings st;
     upload_job_ad_button := upload_job_ad_button st;
     upload_cvs_button := upload_cvs_button st;
     match_cvs_button := match_cvs_button st;
     job_ad_text_preview := content;
     most_suitable_cv_text := most_suitable_cv_text st;
     other_cvs_listbox := other_cvs_listbox st |}.

Definition set_results (st : JobMatcherApp) (content : string)
    (items : list string) : JobMatcherApp :=
  {| self_job_ad_text_raw := self_job_ad_text_raw st;
     self_job_ad_parsed_info := self_job_ad_parsed_info st;
     self_cv_data := self_cv_data st;
     self_cv_ratings := self_cv_ratings st;
     upload_job_ad_button := upload_job_ad_button st;
     upload_cvs_button := upload_cvs_button st;
     match_cvs_button := match_cvs_button st;
     job_ad_text_preview := job_ad_text_preview st;
     most_suitable_cv_text := content;
     other_cvs_listbox := items |}.

(** [str(n)] for an [int]. *)
Definition py_str_int (n : Z) : string :=
  DecimalString.NilZero.string_of_int (Z.to_int n).

(** Equality of two rating dictionaries, by value. *)
Definition rating_eqb (a b : rating) : bool :=
  String.eqb (filename a) (filename b)
  && Z.eqb (score a) (score b)
  && String.eqb (justification a) (justification b).

(** The state after [__init__]: nothing loaded, the match button
    disabled. *)
Definition initial_app : JobMatcherApp :=
  {| self_job_ad_text_raw := "";
     self_job_ad_parsed_info := "";
     self_cv_data := [];
     self_cv_ratings := [];
     upload_job_ad_button := NORMAL;
     upload_cvs_button := NORMAL;
     match_cvs_button := DISABLED;
     job_ad_text_preview := "";
     most_suitable_cv_text := "";
     other_cvs_listbox := [] |}.

Definition _reset_results_area (st : JobMatcherApp) : JobMatcherApp :=
  set_results st "Upload job ad and CVs, then click 'Find Suitable CVs'." [].

Definition _check_and_enable_match_button (st : JobMatcherApp)
  : JobMatcherApp :=
  if PyStr.truthy (self_job_ad_parsed_info st)
     && match self_cv_data st with [] => false | _ :: _ => true end
  then set_buttons st (upload_job_ad_button st) (upload_cvs_button st) NORMAL
  else set_buttons st (upload_job_ad_button st) (upload_cvs_button st) DISABLED.


(** Line 496: the ratings shown in the list box. *)
Definition display_list (most_suitable : option rating)
    (all_cv_ratings : list rating) : list rating :=
  filter (fun c =>
            match most_suitable with
            | Some m => negb (rating_eqb c m)
            | None => true
            end
            || (List.length all_cv_ratings =? 1)%nat)
         all_cv_ratings.



(** What [_start_matching_thread] does besides changing the state: a
    warning box, or the start of the matching thread. *)
Inductive start_result : Type :=
| Warned (title message : string)
| ThreadStarted.

Definition _start_matching_thread (st : JobMatcherApp)
  : JobMatcherApp * start_result :=
  if negb (PyStr.truthy (self_job_ad_parsed_info st)) then
    (st, Warned "Missing Job Ad"
                "Please upload and process a Job Advertisement first.")
  else
    match self_cv_data st with
    | [] =>
        (st, Warned "Missing CVs" "Please upload and process CV files first.")
    | _ :: _ =>
        (_reset_results_area (set_buttons st DISABLED DISABLED DISABLED),
         ThreadStarted)
    end.

Definition _update_cv_gui_after_processing (st : JobMatcherApp)
    (new_cv_data : dict) (total_cvs : nat) : JobMatcherApp :=
  _check_and_enable_match_button (set_cv_data st new_cv_data).

(** [_upload_cv_files] with the selection of the file dialog: the new
    state, and the paths handed to the processing thread if one is
    started. *)
Definition _upload_cv_files (st : JobMatcherApp) (file_paths : list string)
  : JobMatcherApp * option (list string) :=
  match file_paths with
  | _ :: _ => (_reset_results_area (set_cv_data st []), Some file_paths)
  | [] =>
      (_check_and_enable_match_button
         (_reset_results_area (set_cv_data st [])), None)
  end.

(** The services with the profile service for job advertisements, whose
    calls have no event of their own in the trace: the reply is read off
    at the trace of the other calls. *)
Record app_world : Type := {
  services : world;
  parse_job_model : trace -> string -> reply
}.

(** The prompt carries [job_ad_text[:6000]]. *)
Definition parse_job_advertisement (aw : app_world) (job_ad_text : string)
  : M string :=
  let prompt_text := substring 0 6000 job_ad_text in
  try_except
    (response <- (fun t => (Ok (parse_job_model aw t prompt_text), t)) ;;
     match response with
     | Raises e => raise e
     | Falsy => ret "Could not parse job advertisement."
     | Text t => ret t
     end)%monad
    (fun e => ret ("Error parsing job advertisement: " ++ e)%string).

Definition _update_job_ad_gui_after_processing (st : JobMatcherApp)
    (full_text parsed_info : string) : JobMatcherApp :=
  _check_and_enable_match_button
    (set_preview (set_job_ad st (self_job_ad_text_raw st) parsed_info)
                 parsed_info).

Definition _update_job_ad_gui_error (st : JobMatcherApp) (message : string)
  : JobMatcherApp :=
  _check_and_enable_match_button
    (_reset_results_area (set_preview st message)).

(** [_upload_job_ad_file] with the selection of the file dialog (the
    empty string when the dialog is cancelled). *)
Definition _upload_job_ad_file (st : JobMatcherApp) (file_path : string)
  : JobMatcherApp * option string :=
  if PyStr.truthy file_path then
    (set_preview (set_job_ad st "" "") "", Some file_path)
  else
    (_reset_results_area (set_job_ad (set_preview st "") "" ""), None).

(** What the thread of [_upload_job_ad_file] does to the application: the
    assignment of line 329, which the thread makes itself, and the
    callbacks it hands to the main thread with [root.after].  Each acts
    on the state of the moment it happens. *)
Inductive job_ad_action : Type :=
| StoreRawText (full_text : string)
| GuiError (message : string)
| GuiAfterProcessing (full_text parsed_info : string).

Definition run_job_ad_action (a : job_ad_action) (st : JobMatcherApp)
  : JobMatcherApp :=
  match a with
  | StoreRawText full_text =>
      set_job_ad st full_text (self_job_ad_parsed_info st)
  | GuiError message => _update_job_ad_gui_error st message
  | GuiAfterProcessing full_text parsed_info =>
      _update_job_ad_gui_after_processing st full_text parsed_info
  end.

(** The thread of [_upload_job_ad_file]: its actions on the application,
    in the order in which it issues them. *)
Definition _run_job_ad_processing (aw : app_world) (file_path : string)
  : M (list job_ad_action) :=
  (full_text <- _process_document_to_text_list (services aw)
                  (OnePath file_path) true ;;
   if negb (PyStr.truthy (PyStr.strip full_text)) then
     ret [GuiError ("Could not extract text from " ++ basename file_path
                    ++ ". Check file content.")%string]
   else
     parsed_info <- parse_job_advertisement aw full_text ;;
     ret [StoreRawText full_text;
          GuiAfterProcessing full_text parsed_info])%monad.

(** The services of the examples with a profile service for job
    advertisements. *)
Definition office_app_world : app_world := {|
  services := office_world;
  parse_job_model := fun _ text => Text ("Requirements: " ++ text)
|}.

(** A state with a job profile and the three candidates of the examples
    loaded. *)
Definition loaded_app : JobMatcherApp :=
  _check_and_enable_match_button
    (set_cv_data (set_job_ad initial_app "job ad" "Requires: Python, 3 yrs")
       [("A", profile "profile A"); ("B", profile "profile B");
        ("C", profile "profile C")]).

(** ** Facts about strings *)

Module StrFacts.
Import PyStr.

Lemma append_nil_r (s : string) : (s ++ "")%string = s.
Proof. induction s as [|c s IH]; simpl; [reflexivity | now rewrite IH]. Qed.

Lemma length_zero (s : string) : length s = 0%nat -> s = "".
Proof. destruct s; [reflexivity | discriminate]. Qed.

Lemma strip_prefix_spec (p s r : string) :
  strip_prefix p s = Some r <-> s = (p ++ r)%string.
Proof.
  revert s; induction p as [|a p IH]; intros s; simpl.
  - split; intros H; [now inversion H | now subst].
  - destruct s as [|b s].
    + split; intros H; discriminate.
    + destruct (Ascii.eqb_spec a b) as [->|Hne].
      * rewrite IH. split; intros H; [now subst | now inversion H].
      * split; intros H; [discriminate | inversion H; congruence].
Qed.

Lemma drop_while_app (f : ascii -> bool) (a b : string) :
  all f a = true -> drop_while f (a ++ b) = drop_while f b.
Proof.
  induction a as [|x a IH]; simpl; intros H; [reflexivity|].
  apply andb_prop in H as [Hx Ha]. rewrite Hx. auto.
Qed.

Lemma take_while_app (f : ascii -> bool) (a b : string) :
  all f a = true -> take_while f (a ++ b) = (a ++ take_while f b)%string.
Proof.
  induction a as [|x a IH]; simpl; intros H; [reflexivity|].
  apply andb_prop in H as [Hx Ha]. rewrite Hx. now rewrite IH.
Qed.

Lemma take_drop (f : ascii -> bool) (s : string) :
  s = (take_while f s ++ drop_while f s)%string.
Proof.
  induction s as [|c s IH]; simpl; [reflexivity|].
  destruct (f c); simpl; [now rewrite <- IH | reflexivity].
Qed.

Lemma all_take_while (f : ascii -> bool) (s : string) :
  all f (take_while f s) = true.
Proof.
  induction s as [|c s IH]; simpl; [reflexivity|].
  destruct (f c) eqn:E; simpl; [now rewrite E | reflexivity].
Qed.

Lemma digit_not_space (c : ascii) : isdigit c = true -> isspace c = false.
Proof.
  unfold isdigit, isspace. cbv zeta. generalize (code c). intros n H.
  apply andb_prop in H as [H1 H2].
  apply N.leb_le in H1. apply N.leb_le in H2.
  repeat rewrite orb_false_iff. repeat split.
  - apply andb_false_iff. right. apply N.leb_gt. lia.
  - apply andb_false_iff. right. apply N.leb_gt. lia.
  - apply N.eqb_neq. lia.
  - apply N.eqb_neq. lia.
Qed.

End StrFacts.

(** ** The matcher finds exactly the leftmost match *)

Section PercentageSearch.
Import PyStr StrFacts.

Lemma percentage_here_sound (s ds : string) :
  percentage_here s = Some ds -> percentage_at s 0 ds.
Proof.
  unfold percentage_here.
  destruct (strip_prefix "PERCENTAGE:" s) as [r|] eqn:Hp; [|discriminate].
  apply strip_prefix_spec in Hp.
  set (r1 := drop_while isspace r).
  destruct (take_while isdigit r1) as [|d ds0] eqn:Ht; [discriminate|].
  destruct (drop_while isdigit r1) as [|c post] eqn:Hd; [discriminate|].
  destruct (Ascii.eqb_spec c "%"%char) as [->|Hc].
  2:{ intros H. exfalso.
      destruct c as [[] [] [] [] [] [] [] []]; try discriminate H.
      now apply Hc. }
  intros H. assert (ds = String d ds0) as ->.
  { destruct ds; inversion H; reflexivity. }
  exists "", (take_while isspace r), post. repeat split.
  - rewrite Hp. simpl. do 11 f_equal.
    rewrite (take_drop isspace r) at 1. f_equal. fold r1.
    rewrite (take_drop isdigit r1) at 1. rewrite Ht, Hd. reflexivity.
  - apply all_take_while.
  - rewrite <- Ht. apply all_take_while.
  - discriminate.
Qed.

Lemma percentage_here_complete (s ds : string) :
  percentage_at s 0 ds -> percentage_here s = Some ds.
Proof.
  intros (pre & ws & post & -> & Hlen & Hws & Hds & Hne).
  apply length_zero in Hlen. subst pre.
  change ("" ++ "PERCENTAGE:" ++ ws ++ ds ++ "%" ++ post)%string
    with ("PERCENTAGE:" ++ ws ++ ds ++ "%" ++ post)%string.
  unfold percentage_here.
  assert (Hp : strip_prefix "PERCENTAGE:"
                 ("PERCENTAGE:" ++ ws ++ ds ++ "%" ++ post)
               = Some (ws ++ ds ++ "%" ++ post)%string)
    by now apply strip_prefix_spec.
  rewrite Hp.
  destruct ds as [|d ds]; [congruence|].
  assert (Hd : isdigit d = true) by (simpl in Hds; now apply andb_prop in Hds).
  rewrite (drop_while_app isspace ws) by assumption.
  assert (Hdrop : drop_while isspace (String d ds ++ "%" ++ post)
                  = (String d ds ++ "%" ++ post)%string).
  { simpl. now rewrite (digit_not_space d Hd). }
  rewrite Hdrop.
  rewrite (take_while_app isdigit (String d ds)) by assumption.
  rewrite (drop_while_app isdigit (String d ds)) by assumption.
  simpl. rewrite append_nil_r. reflexivity.
Qed.

Lemma percentage_at_shift (c : ascii) (s : string) (i : nat) (ds : string) :
  percentage_at (String c s) (S i) ds <-> percentage_at s i ds.
Proof.
  split.
  - intros (pre & ws & post & Heq & Hlen & H).
    destruct pre as [|c' pre]; [discriminate|].
    simpl in Heq, Hlen. inversion Heq; subst.
    exists pre, ws, post. repeat split; try apply H. now inversion Hlen.
  - intros (pre & ws & post & Heq & Hlen & H).
    exists (String c pre), ws, post. subst. repeat split; try apply H.
Qed.

Lemma percentage_at_empty (i : nat) (ds : string) : ~ percentage_at "" i ds.
Proof.
  intros (pre & ws & post & Heq & _).
  destruct pre; discriminate.
Qed.

(** At a given offset the group is determined: neither run can be
    shortened. *)
Lemma percentage_here_unique (s : string) (i : nat) (ds ds' : string) :
  percentage_at s i ds -> percentage_at s i ds' -> ds = ds'.
Proof.
  revert s; induction i as [|i IH]; intros s H H'.
  - apply percentage_here_complete in H, H'. congruence.
  - destruct s as [|c s]; [now apply percentage_at_empty in H|].
    apply percentage_at_shift in H, H'. eauto.
Qed.

Lemma search_percentage_some (text ds : string) :
  search_percentage text = Some ds <->
  exists i, first_percentage_at text i ds.
Proof.
  revert ds; induction text as [|c text IH]; intros ds.
  - simpl. split; [discriminate|].
    intros (i & H & _). now apply percentage_at_empty in H.
  - cbn [search_percentage].
    destruct (percentage_here (String c text)) as [d0|] eqn:Hh.
    + split.
      * intros H; inversion H; subst. exists 0%nat. split.
        -- now apply percentage_here_sound.
        -- intros j ds' Hj. lia.
      * intros (i & H & Hmin). f_equal.
        destruct i as [|i].
        -- apply percentage_here_complete in H. congruence.
        -- exfalso. apply (Hmin 0%nat d0); [lia|].
           now apply percentage_here_sound.
    + rewrite IH. split.
      * intros (i & H & Hmin). exists (S i). split.
        -- now apply percentage_at_shift.
        -- intros [|j] ds' Hj Hat.
           ++ apply percentage_here_complete in Hat. congruence.
           ++ apply percentage_at_shift in Hat. apply (Hmin j ds'); [lia|assumption].
      * intros (i & H & Hmin). destruct i as [|i].
        -- apply percentage_here_complete in H. congruence.
        -- exists i. split; [now apply percentage_at_shift in H|].
           intros j ds' Hj Hat. apply (Hmin (S j) ds'); [lia|].
           now apply percentage_at_shift.
Qed.


End PercentageSearch.

(** ** Running the service wrappers *)

Section Wrappers.
Import PyStr StrFacts.

Variable w : world.

Lemma py_int_within (ds : string) :
  within_int_limit w ds -> all isdigit ds = true -> ds <> "" ->
  py_int w ds = Ok (decimal 0 ds).
Proof.
  intros Hlim Hd Hne. unfold py_int.
  assert (Hc : ((0 <? int_max_str_digits w)
                && (Nat.max (int_max_str_digits w) 640 <? length ds))%nat
               = false).
  { apply andb_false_iff. destruct Hlim as [H0|Hle].
    - left. rewrite H0. reflexivity.
    - right. apply Nat.ltb_ge. exact Hle. }
  rewrite Hc, Hd. destruct ds; [congruence|reflexivity].
Qed.


Lemma clamp_range (n : Z) : (0 <= clamp n <= 100)%Z.
Proof. unfold clamp. lia. Qed.

Lemma parse_reply_score_range (text : string) :
  (0 <= fst (parse_reply w text) <= 100)%Z.
Proof.
  unfold parse_reply. cbn [fst].
  destruct (search_percentage text) as [g|]; [|lia].
  destruct (py_int w g); [apply clamp_range | lia].
Qed.

Lemma rate_cv_suitability_run (job cv : string) (t : trace) :
  rate_cv_suitability w job cv t
  = (Ok (rate_outcome w t job cv), t ++ [RateCall job cv]).
Proof.
  unfold rate_cv_suitability, rate_outcome, try_except, bind, call, raise, ret.
  destruct (rate_model w t job cv); reflexivity.
Qed.

Lemma rate_outcome_range (t : trace) (job cv : string) :
  (0 <= fst (rate_outcome w t job cv) <= 100)%Z.
Proof.
  unfold rate_outcome.
  destruct (rate_model w t job cv); try apply parse_reply_score_range.
  cbn [fst]. lia.
Qed.


End Wrappers.



(** ** The ranking: sorted, stable, and determined by that *)

Section Ranking.

Lemma insert_desc_perm (x : rating) (l : list rating) :
  Permutation (insert_desc x l) (x :: l).
Proof.
  induction l as [|y l IH]; simpl; [apply Permutation_refl|].
  destruct (score x <? score y)%Z; [|apply Permutation_refl].
  eapply perm_trans; [apply perm_skip, IH | apply perm_swap].
Qed.

Lemma sort_by_score_desc_perm (l : list rating) :
  Permutation (sort_by_score_desc l) l.
Proof.
  induction l as [|x l IH]; simpl; [constructor|].
  eapply perm_trans; [apply insert_desc_perm | now apply perm_skip].
Qed.

Lemma insert_desc_sorted (x : rating) (l : list rating) :
  ranked_desc l -> ranked_desc (insert_desc x l).
Proof.
  unfold ranked_desc. induction l as [|y l IH]; intros Hs; simpl.
  - repeat constructor.
  - inversion Hs as [|? ? Hl Hy]; subst.
    destruct (Z.ltb_spec (score x) (score y)) as [Hlt|Hge].
    + constructor; [now apply IH|].
      apply Forall_forall. intros z Hz.
      apply (Permutation_in _ (insert_desc_perm x l)) in Hz.
      destruct Hz as [<-|Hz]; [lia|].
      rewrite Forall_forall in Hy. now apply Hy.
    + constructor; [assumption|].
      constructor; [assumption|].
      eapply Forall_impl; [|exact Hy]. cbv beta. intros z Hz. lia.
Qed.

Lemma sort_by_score_desc_sorted (l : list rating) :
  ranked_desc (sort_by_score_desc l).
Proof.
  induction l as [|x l IH]; simpl; [constructor | now apply insert_desc_sorted].
Qed.

Lemma insert_desc_with_score (s : Z) (x : rating) (l : list rating) :
  with_score s (insert_desc x l) = with_score s (x :: l).
Proof.
  unfold with_score. induction l as [|y l IH]; [reflexivity|].
  cbn [insert_desc].
  destruct (Z.ltb_spec (score x) (score y)) as [Hlt|Hge]; [|reflexivity].
  cbn [filter] in *. rewrite IH.
  destruct (Z.eqb_spec (score x) s), (Z.eqb_spec (score y) s);
    try reflexivity; lia.
Qed.

(** Stability: within one score the order of the list is kept. *)
Lemma sort_by_score_desc_stable (s : Z) (l : list rating) :
  with_score s (sort_by_score_desc l) = with_score s l.
Proof.
  induction l as [|x l IH]; [reflexivity|].
  cbn [sort_by_score_desc fold_right].
  rewrite insert_desc_with_score. unfold with_score in *. cbn [filter].
  fold (sort_by_score_desc l). now rewrite IH.
Qed.

Lemma with_score_in (s : Z) (x : rating) (l : list rating) :
  In x (with_score s l) <-> In x l /\ score x = s.
Proof.
  unfold with_score. rewrite filter_In. now rewrite Z.eqb_eq.
Qed.

Lemma ranked_desc_determined (l1 l2 : list rating) :
  ranked_desc l1 -> ranked_desc l2 ->
  (forall s, with_score s l1 = with_score s l2) -> l1 = l2.
Proof.
  unfold ranked_desc. revert l2.
  induction l1 as [|x l1 IH]; intros l2 H1 H2 Heq.
  - destruct l2 as [|y l2]; [reflexivity|].
    specialize (Heq (score y)). unfold with_score in Heq. cbn [filter] in Heq.
    rewrite Z.eqb_refl in Heq. discriminate.
  - destruct l2 as [|y l2].
    + specialize (Heq (score x)). unfold with_score in Heq. cbn [filter] in Heq.
      rewrite Z.eqb_refl in Heq. discriminate.
    + inversion H1 as [|? ? H1l H1x]; inversion H2 as [|? ? H2l H2y]; subst.
      assert (Hxy : score x = score y).
      { assert (Hx : In x (y :: l2)).
        { apply (with_score_in (score x)). rewrite <- Heq.
          apply with_score_in. split; [now left | reflexivity]. }
        assert (Hy : In y (x :: l1)).
        { apply (with_score_in (score y)). rewrite Heq.
          apply with_score_in. split; [now left | reflexivity]. }
        rewrite Forall_forall in H1x, H2y.
        destruct Hx as [->|Hx]; [reflexivity|].
        destruct Hy as [->|Hy]; [reflexivity|].
        specialize (H1x _ Hy). specialize (H2y _ Hx). lia. }
      assert (x = y) as ->.
      { specialize (Heq (score x)). unfold with_score in Heq.
        cbn [filter] in Heq. rewrite <- Hxy, Z.eqb_refl in Heq.
        now inversion Heq. }
      f_equal. apply IH; try assumption.
      intros s. specialize (Heq s). unfold with_score in *.
      cbn [filter] in Heq. destruct (score y =? s)%Z; [now inversion Heq | assumption].
Qed.

(** Any stable sort by descending score returns what
    [sort_by_score_desc] returns. *)
Lemma sort_by_score_desc_unique (l l' : list rating) :
  ranked_desc l' -> (forall s, with_score s l' = with_score s l) ->
  l' = sort_by_score_desc l.
Proof.
  intros Hs Hst. apply ranked_desc_determined; try assumption.
  - apply sort_by_score_desc_sorted.
  - intros s. now rewrite Hst, sort_by_score_desc_stable.
Qed.

Lemma sort_by_score_desc_nil (l : list rating) :
  sort_by_score_desc l = [] <-> l = [].
Proof.
  split; [|now intros ->].
  intros H. pose proof (sort_by_score_desc_perm l) as Hp. rewrite H in Hp.
  now apply Permutation_nil in Hp.
Qed.

(** The head of the ranking when a rating is appended to the list: the
    newcomer takes the lead only with a strictly higher score. *)
Lemma hd_sort_snoc (l : list rating) (x : rating) :
  hd_error (sort_by_score_desc (l ++ [x])) =
  match hd_error (sort_by_score_desc l) with
  | None => Some x
  | Some m => if (score x >? score m)%Z then Some x else Some m
  end.
Proof.
  assert (Hins : forall a s,
             hd_error (insert_desc a s) =
             match hd_error s with
             | None => Some a
             | Some h => if (score a <? score h)%Z then Some h else Some a
             end).
  { intros a [|h s]; simpl; [reflexivity|].
    now destruct (score a <? score h)%Z. }
  induction l as [|a l IH]; [reflexivity|].
  cbn [app sort_by_score_desc fold_right].
  fold (sort_by_score_desc (l ++ [x])). fold (sort_by_score_desc l).
  rewrite !Hins, IH.
  destruct (hd_error (sort_by_score_desc l)) as [m|].
  - destruct (Z.gtb_spec (score x) (score m)),
             (Z.ltb_spec (score a) (score m)),
             (Z.ltb_spec (score a) (score x));
      try destruct (Z.gtb_spec (score x) (score a));
      try destruct (Z.gtb_spec (score x) (score m));
      try reflexivity; lia.
  - destruct (Z.gtb_spec (score x) (score a)),
             (Z.ltb_spec (score a) (score x)); try reflexivity; lia.
Qed.

End Ranking.

(** ** The matching loop in closed form *)

Section Engine.

Variable w : world.
Variable job : string.

Lemma rate_step_skipped (st : match_state) (fn : string) (cv : cv_info)
    (t : trace) :
  skipped cv = true ->
  rate_step w job st (fn, cv) t
  = (Ok {| cv_ratings := cv_ratings st ++ [skipped_rating fn];
           max_score := max_score st;
           most_suitable_cv_info := most_suitable_cv_info st |}, t).
Proof. intros H. unfold rate_step. rewrite H. reflexivity. Qed.

Lemma rate_step_rated (st : match_state) (fn : string) (cv : cv_info)
    (t : trace) :
  skipped cv = false ->
  rate_step w job st (fn, cv) t
  = (Ok {| cv_ratings := cv_ratings st ++ [rating_of w job t fn cv];
           max_score :=
             fst (better (max_score st, most_suitable_cv_info st)
                         (rating_of w job t fn cv));
           most_suitable_cv_info :=
             snd (better (max_score st, most_suitable_cv_info st)
                         (rating_of w job t fn cv)) |},
     t ++ [RateCall job (parsed_info cv)]).
Proof.
  intros H. unfold rate_step, bind. rewrite H, rate_cv_suitability_run.
  unfold better, rating_of. cbn [fst snd score].
  destruct (fst (rate_outcome w t job (parsed_info cv)) >? max_score st)%Z;
    reflexivity.
Qed.

Lemma rate_loop_run (items : dict) (st : match_state) (t : trace) :
  rate_loop w job items st t
  = (Ok {| cv_ratings := cv_ratings st ++ ratings_from w job t items;
           max_score :=
             fst (best_from w job t items (max_score st, most_suitable_cv_info st));
           most_suitable_cv_info :=
             snd (best_from w job t items (max_score st, most_suitable_cv_info st)) |},
     trace_after job t items).
Proof.
  revert st t. induction items as [|[fn cv] rest IH]; intros st t.
  - cbn. rewrite app_nil_r. now destruct st.
  - cbn [rate_loop ratings_from trace_after best_from]. unfold bind.
    destruct (skipped cv) eqn:Hs.
    + rewrite (rate_step_skipped st fn cv t Hs), IH. cbn.
      now rewrite <- app_assoc.
    + rewrite (rate_step_rated st fn cv t Hs), IH. cbn.
      rewrite <- app_assoc.
      now destruct (better (max_score st, most_suitable_cv_info st)
                           (rating_of w job t fn cv)).
Qed.

(** The whole method: it returns, with the best candidate kept by the
    loop and the stable ranking of the collected ratings. *)
Lemma run_matching_and_rating_run (cv_data : dict) (t : trace) :
  _run_matching_and_rating w job cv_data t
  = (Ok (snd (best_from w job t cv_data ((-1)%Z, None)),
         sort_by_score_desc (ratings_from w job t cv_data)),
     trace_after job t cv_data).
Proof.
  unfold _run_matching_and_rating, bind. rewrite rate_loop_run.
  cbn [cv_ratings most_suitable_cv_info initial_match_state max_score app].
  destruct (ratings_from w job t cv_data) as [|r rs]; [|reflexivity].
  now destruct (snd (best_from w job t cv_data ((-1)%Z, None))).
Qed.

Lemma ratings_from_filenames (items : dict) (t : trace) :
  map filename (ratings_from w job t items) = map fst items.
Proof.
  revert t. induction items as [|[fn cv] rest IH]; intros t; [reflexivity|].
  cbn [ratings_from]. destruct (skipped cv); cbn; now rewrite IH.
Qed.

Lemma ratings_from_app (pre post : dict) (t : trace) :
  ratings_from w job t (pre ++ post)
  = ratings_from w job t pre ++ ratings_from w job (trace_after job t pre) post.
Proof.
  revert t. induction pre as [|[fn cv] pre IH]; intros t; [reflexivity|].
  cbn [app ratings_from trace_after].
  destruct (skipped cv); cbn; now rewrite IH.
Qed.

(** The scoring service is called for the candidates that are not
    skipped, once each and in order, and for nothing else. *)
Lemma trace_after_calls (items : dict) (t : trace) :
  trace_after job t items
  = t ++ map (fun item => RateCall job (parsed_info (snd item)))
             (filter rated items).
Proof.
  revert t. induction items as [|[fn cv] rest IH]; intros t.
  - cbn. now rewrite app_nil_r.
  - cbn [trace_after filter]. unfold rated at 1. cbn [snd].
    destruct (skipped cv); cbn [negb]; rewrite IH; [reflexivity|].
    cbn. now rewrite <- app_assoc.
Qed.

Lemma ratings_from_skipped (items : dict) (t : trace) (fn : string)
    (cv : cv_info) :
  In (fn, cv) items -> skipped cv = true ->
  In (skipped_rating fn) (ratings_from w job t items).
Proof.
  revert t. induction items as [|[fn' cv'] rest IH]; intros t Hin Hs;
    [contradiction|].
  cbn [ratings_from]. destruct Hin as [Heq|Hin].
  - inversion Heq; subst. rewrite Hs. now left.
  - destruct (skipped cv'); right; now apply IH.
Qed.

(** Dropping the skipped candidates changes neither the calls nor the
    best candidate. *)
Lemma trace_after_rated (items : dict) (t : trace) :
  trace_after job t (filter rated items) = trace_after job t items.
Proof.
  revert t. induction items as [|[fn cv] rest IH]; intros t; [reflexivity|].
  cbn [filter trace_after]. unfold rated at 1. cbn [snd].
  destruct (skipped cv) eqn:Hs; cbn [negb trace_after]; [apply IH|].
  rewrite Hs. apply IH.
Qed.

Lemma best_from_rated (items : dict) (t : trace) (b : Z * option rating) :
  best_from w job t (filter rated items) b = best_from w job t items b.
Proof.
  revert t b. induction items as [|[fn cv] rest IH]; intros t b; [reflexivity|].
  cbn [filter best_from]. unfold rated at 1. cbn [snd].
  destruct (skipped cv) eqn:Hs; cbn [negb best_from]; [apply IH|].
  rewrite Hs. apply IH.
Qed.

Lemma rating_of_range (t : trace) (fn : string) (cv : cv_info) :
  (0 <= score (rating_of w job t fn cv) <= 100)%Z.
Proof. apply rate_outcome_range. Qed.

Lemma better_ok (b : Z * option rating) (t : trace) (fn : string)
    (cv : cv_info) :
  best_ok b -> best_ok (better b (rating_of w job t fn cv)) /\
               snd (better b (rating_of w job t fn cv)) <> None.
Proof.
  intros Hb. pose proof (rating_of_range t fn cv) as Hr.
  unfold better, best_ok in *.
  destruct (Z.gtb_spec (score (rating_of w job t fn cv)) (fst b)); cbn [fst snd].
  - split; [lia | discriminate].
  - split; [assumption|]. destruct (snd b); [discriminate | lia].
Qed.

Lemma best_from_kept (items : dict) (t : trace) (b : Z * option rating) :
  snd b <> None -> snd (best_from w job t items b) <> None.
Proof.
  revert t b. induction items as [|[fn cv] rest IH]; intros t b Hb;
    [assumption|].
  cbn [best_from]. destruct (skipped cv); [now apply IH|].
  apply IH. unfold better. now destruct (score (rating_of w job t fn cv) >? fst b)%Z.
Qed.

Lemma best_from_none (items : dict) (t : trace) (b : Z * option rating) :
  best_ok b ->
  (snd (best_from w job t items b) = None <->
   snd b = None /\ Forall (fun item => skipped (snd item) = true) items).
Proof.
  revert t b. induction items as [|[fn cv] rest IH]; intros t b Hb.
  - cbn. split; [now intros H | now intros [H _]].
  - cbn [best_from]. destruct (skipped cv) eqn:Hs.
    + rewrite IH by assumption. split; intros [H1 H2]; split; try assumption.
      * now constructor.
      * now inversion H2.
    + destruct (better_ok b t fn cv Hb) as [Hok Hsome]. split.
      * intros H. exfalso. revert H. now apply best_from_kept.
      * intros [_ H]. inversion H; subst. cbn [snd] in *. congruence.
Qed.

(** Without skipped candidates the best candidate is the head of the
    ranking of everything collected so far. *)
Lemma best_from_head (items : dict) (t : trace) (acc : list rating)
    (b : Z * option rating) :
  best_ok b -> snd b = hd_error (sort_by_score_desc acc) ->
  Forall (fun item => skipped (snd item) = false) items ->
  snd (best_from w job t items b)
  = hd_error (sort_by_score_desc (acc ++ ratings_from w job t items)).
Proof.
  revert t acc b.
  induction items as [|[fn cv] rest IH]; intros t acc b Hb Hhd Hall.
  - cbn. now rewrite app_nil_r.
  - inversion Hall as [|? ? Hs Hrest]; subst. cbn [snd] in Hs.
    cbn [best_from ratings_from]. rewrite Hs.
    replace (acc ++ rating_of w job t fn cv
                 :: ratings_from w job (t ++ [RateCall job (parsed_info cv)]) rest)
      with ((acc ++ [rating_of w job t fn cv])
            ++ ratings_from w job (t ++ [RateCall job (parsed_info cv)]) rest)
      by now rewrite <- app_assoc.
    apply IH; try assumption.
    + now apply better_ok.
    + rewrite hd_sort_snoc, <- Hhd.
      pose proof (rating_of_range t fn cv) as Hr.
      unfold better, best_ok in *.
      destruct (snd b) as [m|] eqn:Hm.
      * destruct Hb as [Hb _]. rewrite Hb.
        now destruct (score (rating_of w job t fn cv) >? score m)%Z.
      * rewrite Hb.
        destruct (Z.gtb_spec (score (rating_of w job t fn cv)) (-1)); [reflexivity | lia].
Qed.

(** The best candidate is one of the collected ratings and no collected
    rating has a higher score. *)
Lemma best_from_max (items : dict) (t : trace) (acc : list rating)
    (b : Z * option rating) :
  best_ok b ->
  (forall m, snd b = Some m ->
             In m acc /\ Forall (fun r => (score r <= score m)%Z) acc) ->
  Forall (fun r => (score r <= 0)%Z) acc \/ snd b <> None ->
  forall m, snd (best_from w job t items b) = Some m ->
            In m (acc ++ ratings_from w job t items) /\
            Forall (fun r => (score r <= score m)%Z)
                   (acc ++ ratings_from w job t items).
Proof.
  revert t acc b.
  induction items as [|[fn cv] rest IH]; intros t acc b Hb Hacc Hlow m Hm.
  - cbn in *. rewrite app_nil_r. now apply Hacc.
  - cbn [best_from ratings_from] in *. destruct (skipped cv) eqn:Hs.
    + replace (acc ++ skipped_rating fn :: ratings_from w job t rest)
        with ((acc ++ [skipped_rating fn]) ++ ratings_from w job t rest)
        by now rewrite <- app_assoc.
      apply (IH t (acc ++ [skipped_rating fn]) b); try assumption.
      * intros m' Hm'. destruct (Hacc m' Hm') as [Hin Hle]. split.
        -- apply in_or_app. now left.
        -- apply Forall_app. split; [assumption|].
           constructor; [|constructor]. cbn.
           unfold best_ok in Hb. rewrite Hm' in Hb. lia.
      * destruct Hlow as [Hlow|Hlow]; [left | now right].
        apply Forall_app. split; [assumption|].
        constructor; [cbn; lia | constructor].
    + replace (acc ++ rating_of w job t fn cv
                   :: ratings_from w job (t ++ [RateCall job (parsed_info cv)]) rest)
        with ((acc ++ [rating_of w job t fn cv])
              ++ ratings_from w job (t ++ [RateCall job (parsed_info cv)]) rest)
        by now rewrite <- app_assoc.
      destruct (better_ok b t fn cv Hb) as [Hok Hsome].
      apply (IH _ (acc ++ [rating_of w job t fn cv])
                (better b (rating_of w job t fn cv))); try assumption.
      * pose proof (rating_of_range t fn cv) as Hr.
        intros m'. unfold better.
        destruct (Z.gtb_spec (score (rating_of w job t fn cv)) (fst b)) as [Hgt|Hle];
          cbn [snd]; intros Hm'.
        -- inversion Hm'; subst m'. split.
           ++ apply in_or_app. right. now left.
           ++ apply Forall_app. split; [|constructor; [lia | constructor]].
              unfold best_ok in Hb. destruct (snd b) as [m0|] eqn:Hb0.
              ** destruct (Hacc m0 eq_refl) as [_ Hle0].
                 eapply Forall_impl; [|exact Hle0]. cbv beta. intros r Hr'. lia.
              ** destruct Hlow as [Hlow|Hlow]; [|congruence].
                 eapply Forall_impl; [|exact Hlow]. cbv beta. intros r Hr'. lia.
        -- destruct (Hacc m' Hm') as [Hin Hle0]. split.
           ++ apply in_or_app. now left.
           ++ apply Forall_app. split; [assumption|].
              constructor; [|constructor].
              unfold best_ok in Hb. rewrite Hm' in Hb. lia.
      * now right.
Qed.

End Engine.

(** The engine returns, with as many ratings as candidates. *)
Lemma matching_returns_one_rating_each
    (w : world) (job : string) (cv_data : dict) (t : trace) :
  exists top ranked t',
    _run_matching_and_rating w job cv_data t = (Ok (top, ranked), t') /\
    List.length ranked = List.length cv_data.
Proof.
  do 3 eexists. split; [apply run_matching_and_rating_run|].
  rewrite (Permutation_length (sort_by_score_desc_perm _)).
  rewrite <- (length_map filename), ratings_from_filenames.
  apply length_map.
Qed.

(** ** The matching engine: results *)

(** C1 fails as stated.  A CV that cannot be read is stored with the
    no-text profile and skipped by the engine, which ranks it but never
    makes it the most suitable one: the ranking then has one element and
    the top is none.  And when a skipped candidate comes before one that
    the service scores 0, the skipped one heads the ranking while the
    scored one is the top. *)
Lemma skipped_candidates_are_ranked_but_never_top :
  _run_cv_processing mocked_world ["cvs/alice.png"] []
  = (Ok ([("alice.png", no_text_entry)], 1%nat), [FileRead "cvs/alice.png"]) /\
  _run_matching_and_rating mocked_world "Requires: Python, 3 yrs"
      [("alice.png", no_text_entry)] []
  = (Ok (None, [skipped_rating "alice.png"]), []) /\
  hd_error [skipped_rating "alice.png"] <> None /\
  (let zoe := {| filename := "zoe.png"; score := 0;
                 justification := "no match" |} in
   _run_matching_and_rating mocked_world "Requires: Python, 3 yrs"
       [("alice.png", no_text_entry); ("zoe.png", profile "profile Z")] []
   = (Ok (Some zoe, [skipped_rating "alice.png"; zoe]),
      [RateCall "Requires: Python, 3 yrs" "profile Z"]) /\
   Some zoe <> hd_error [skipped_rating "alice.png"; zoe]).
Proof.
  split; [reflexivity|].
  split; [reflexivity|].
  split; [discriminate|].
  split; [reflexivity | discriminate].
Qed.

(** How the top candidate sits in the ranking. *)

Section TopAndHead.

Variable w : world.
Variable job : string.

Lemma with_score_rated (s : Z) (items : dict) (t : trace) :
  s <> 0%Z ->
  with_score s (ratings_from w job t (filter rated items))
  = with_score s (ratings_from w job t items).
Proof.
  intros Hs. revert t.
  induction items as [|[fn cv] rest IH]; intros t; [reflexivity|].
  cbn [filter]. unfold rated at 1. cbn [snd].
  destruct (skipped cv) eqn:Hskip; cbn [negb ratings_from]; rewrite ?Hskip.
  - unfold with_score at 2. cbn [filter score skipped_rating].
    destruct (Z.eqb_spec 0 s) as [H0|_]; [congruence|]. apply IH.
  - unfold with_score in *. cbn [filter]. rewrite IH. reflexivity.
Qed.

Lemma hd_with_score (l : list rating) (m : rating) :
  ranked_desc l -> In m l ->
  Forall (fun r => (score r <= score m)%Z) l ->
  hd_error l = hd_error (with_score (score m) l).
Proof.
  intros Hsorted Hin Hmax. destruct l as [|h tl]; [contradiction|].
  assert (Hh : score h = score m).
  { inversion Hmax as [|? ? Hle _]; subst.
    inversion Hsorted as [|? ? _ Htl]; subst.
    destruct Hin as [->|Hin]; [reflexivity|].
    rewrite Forall_forall in Htl. specialize (Htl m Hin). lia. }
  unfold with_score. cbn [filter]. rewrite Hh, Z.eqb_refl. reflexivity.
Qed.

Lemma ratings_from_range (items : dict) (t : trace) :
  Forall (fun r => (0 <= score r <= 100)%Z) (ratings_from w job t items).
Proof.
  revert t. induction items as [|[fn cv] rest IH]; intros t;
    cbn [ratings_from]; [constructor|].
  destruct (skipped cv); constructor; try apply IH.
  - cbn. lia.
  - apply rating_of_range.
Qed.

(** With top candidate [m]: the head of the ranking is the first
    collected rating of the score of [m], [m] is the first such rating of
    a candidate that is not skipped, and no collected rating scores
    higher. *)
Lemma top_and_head (cv_data : dict) (t : trace) (m : rating) :
  snd (best_from w job t cv_data ((-1)%Z, None)) = Some m ->
  hd_error (sort_by_score_desc (ratings_from w job t cv_data))
  = hd_error (with_score (score m) (ratings_from w job t cv_data)) /\
  hd_error (with_score (score m)
              (ratings_from w job t (filter rated cv_data)))
  = Some m /\
  Forall (fun r => (score r <= score m)%Z) (ratings_from w job t cv_data).
Proof.
  intros Hm.
  assert (Hinit : best_ok ((-1)%Z, None)) by reflexivity.
  destruct (best_from_max w job cv_data t [] ((-1)%Z, None) Hinit) with (m := m)
    as [Hin Hle]; try assumption.
  { intros m' Hm'. discriminate Hm'. }
  { left. constructor. }
  cbn [app] in Hin, Hle.
  split; [|split; [|exact Hle]].
  - rewrite <- (sort_by_score_desc_stable (score m)).
    apply hd_with_score.
    + apply sort_by_score_desc_sorted.
    + eapply Permutation_in; [|exact Hin].
      apply Permutation_sym, sort_by_score_desc_perm.
    + eapply Permutation_Forall; [|exact Hle].
      apply Permutation_sym, sort_by_score_desc_perm.
  - rewrite <- (best_from_rated w job cv_data) in Hm.
    rewrite (best_from_head w job (filter rated cv_data) t []) in Hm.
    + cbn [app] in Hm.
      rewrite <- (sort_by_score_desc_stable (score m)).
      destruct (sort_by_score_desc
                  (ratings_from w job t (filter rated cv_data)))
        as [|h tl]; [discriminate|].
      cbn in Hm. inversion Hm; subst h.
      unfold with_score. cbn [filter]. now rewrite Z.eqb_refl.
    + exact Hinit.
    + reflexivity.
    + apply Forall_forall. intros item Hitem.
      apply filter_In in Hitem as [_ Hr].
      unfold rated in Hr. now apply negb_true_iff in Hr.
Qed.

End TopAndHead.

(** C1, amended.  The engine returns for every candidate mapping; the
    ranking is empty only for the empty mapping and has one rating per
    candidate.  The top is none exactly when every candidate is skipped.
    Otherwise the top is the head of the ranking whenever it scores above
    0, and whenever the first candidate of the mapping is not skipped (so
    whenever no candidate is skipped); if the top scores 0 and the first
    candidate is skipped, the head of the ranking is the rating of that
    skipped candidate.  In every case the top is the head of the ranking
    that the same run gives for the candidates that are not skipped, it is
    one of the ranked ratings, and no ranked rating has a higher score. *)
Theorem top_heads_ranking_of_rated_candidates
    (w : world) (job : string) (cv_data : dict) (t : trace) :
  exists top ranked t',
    _run_matching_and_rating w job cv_data t = (Ok (top, ranked), t') /\
    (ranked = [] <-> cv_data = []) /\
    List.length ranked = List.length cv_data /\
    (top = None <-> Forall (fun item => skipped (snd item) = true) cv_data) /\
    (exists ranked_rated,
       _run_matching_and_rating w job (filter rated cv_data) t
       = (Ok (top, ranked_rated), t') /\
       top = hd_error ranked_rated) /\
    (forall m, top = Some m ->
       In m ranked /\ Forall (fun r => (score r <= score m)%Z) ranked) /\
    (Forall (fun item => skipped (snd item) = false) cv_data ->
     top = hd_error ranked) /\
    (forall m, top = Some m -> (0 < score m)%Z -> top = hd_error ranked) /\
    (forall m fn cv rest,
       top = Some m -> cv_data = (fn, cv) :: rest -> skipped cv = false ->
       top = hd_error ranked) /\
    (forall m fn cv rest,
       top = Some m -> score m = 0%Z ->
       cv_data = (fn, cv) :: rest -> skipped cv = true ->
       hd_error ranked = Some (skipped_rating fn)).
Proof.
  assert (Hinit : best_ok ((-1)%Z, None)) by reflexivity.
  assert (Hhead : forall d,
             Forall (fun item => skipped (snd item) = false) d ->
             snd (best_from w job t d ((-1)%Z, None))
             = hd_error (sort_by_score_desc (ratings_from w job t d))).
  { intros d Hd.
    now apply (best_from_head w job d t [] ((-1)%Z, None)). }
  do 3 eexists. split; [apply run_matching_and_rating_run|].
  split; [|split; [|split; [|split; [|split; [|split; [|split; [|split]]]]]]].
  - rewrite sort_by_score_desc_nil. split.
    + intros H. apply (f_equal (map filename)) in H.
      rewrite ratings_from_filenames in H. now apply map_eq_nil in H.
    + now intros ->.
  - rewrite (Permutation_length (sort_by_score_desc_perm _)).
    rewrite <- (length_map filename), ratings_from_filenames.
    apply length_map.
  - rewrite best_from_none by assumption. cbn [snd]. tauto.
  - eexists. split.
    + rewrite run_matching_and_rating_run, best_from_rated, trace_after_rated.
      reflexivity.
    + rewrite <- (best_from_rated w job cv_data). apply Hhead.
      apply Forall_forall. intros item Hin. apply filter_In in Hin as [_ Hr].
      unfold rated in Hr. now apply negb_true_iff in Hr.
  - intros m Hm.
    destruct (best_from_max w job cv_data t [] ((-1)%Z, None) Hinit) with (m := m)
      as [Hin Hle]; try assumption.
    + intros m' Hm'. discriminate Hm'.
    + left. constructor.
    + cbn [app] in *. split.
      * eapply Permutation_in; [|exact Hin].
        apply Permutation_sym, sort_by_score_desc_perm.
      * eapply Permutation_Forall; [|exact Hle].
        apply Permutation_sym, sort_by_score_desc_perm.
  - apply Hhead.
  - intros m Hm Hpos.
    destruct (top_and_head w job cv_data t m Hm) as (Hall & Hrated & _).
    rewrite Hall, <- with_score_rated by lia. rewrite Hrated. exact Hm.
  - intros m fn cv rest Hm -> Hs.
    destruct (top_and_head w job _ t m Hm) as (Hall & Hrated & Hmax).
    destruct (Z.eq_dec (score m) 0) as [Hzero|Hpos].
    + rewrite Hm, Hall, <- Hrated.
      cbn [filter]. unfold rated at 1. cbn [snd ratings_from].
      rewrite Hs. cbn [negb ratings_from]. rewrite Hs.
      cbn [ratings_from] in Hmax. rewrite Hs in Hmax.
      inversion Hmax as [|? ? Hle _]; subst.
      pose proof (rating_of_range w job t fn cv) as Hrange.
      unfold with_score. cbn [filter].
      assert (Heq : (score (rating_of w job t fn cv) =? score m)%Z = true)
        by (apply Z.eqb_eq; lia).
      rewrite Heq. reflexivity.
    + rewrite Hall, <- with_score_rated by assumption.
      rewrite Hrated. exact Hm.
  - intros m fn cv rest Hm Hzero -> Hs.
    destruct (top_and_head w job _ t m Hm) as (Hall & _ & _).
    rewrite Hall. cbn [ratings_from]. rewrite Hs.
    unfold with_score. cbn [filter score skipped_rating].
    rewrite Hzero. reflexivity.
Qed.

(** C3.  The ranking of every run is sorted descending by score, holds
    the collected ratings and no others, and keeps among the ratings of
    one score the order in which they were collected, which is the order
    of the candidate mapping.  Candidates A, B, C scored 80, 95, 95 are
    ranked B, C, A, and B is the top. *)
Theorem ranking_is_sorted_and_stable :
  (forall (w : world) (job : string) (cv_data : dict) (t : trace),
     exists top ranked st t',
       _run_matching_and_rating w job cv_data t = (Ok (top, ranked), t') /\
       rate_loop w job cv_data initial_match_state t = (Ok st, t') /\
       map filename (cv_ratings st) = map fst cv_data /\
       Permutation ranked (cv_ratings st) /\
       ranked_desc ranked /\
       forall s, with_score s ranked = with_score s (cv_ratings st)) /\
  (let a := {| filename := "A"; score := 80;
               justification := "partial match" |} in
   let b := {| filename := "B"; score := 95;
               justification := "strong match" |} in
   let c := {| filename := "C"; score := 95;
               justification := "strong match too" |} in
   _run_matching_and_rating mocked_world "Requires: Python, 3 yrs"
       [("A", profile "profile A"); ("B", profile "profile B");
        ("C", profile "profile C")] []
   = (Ok (Some b, [b; c; a]),
      [RateCall "Requires: Python, 3 yrs" "profile A";
       RateCall "Requires: Python, 3 yrs" "profile B";
       RateCall "Requires: Python, 3 yrs" "profile C"])).
Proof.
  split; [|reflexivity].
  intros w job cv_data t. do 4 eexists.
  split; [apply run_matching_and_rating_run|].
  split; [apply rate_loop_run|].
  cbn [cv_ratings initial_match_state app].
  split; [apply ratings_from_filenames|].
  split; [apply sort_by_score_desc_perm|].
  split; [apply sort_by_score_desc_sorted|].
  intros s. apply sort_by_score_desc_stable.
Qed.

(** C5.  The engine returns for every candidate mapping, whatever the
    scoring service does: the filenames of the ranking are those of the
    mapping, one rating each.  When the scoring call for a candidate
    raises, the ranking holds for it the rating with score 0 and the error
    description as justification, next to the ratings of the candidates
    before and after it. *)
Theorem engine_isolates_scoring_failures
    (w : world) (job : string) (cv_data : dict) (t : trace) :
  exists top ranked t',
    _run_matching_and_rating w job cv_data t = (Ok (top, ranked), t') /\
    Permutation (map filename ranked) (map fst cv_data) /\
    List.length ranked = List.length cv_data /\
    forall pre fn cv post st1 t1 e,
      cv_data = pre ++ (fn, cv) :: post ->
      rate_loop w job pre initial_match_state t = (Ok st1, t1) ->
      skipped cv = false ->
      rate_model w t1 job (parsed_info cv) = Raises e ->
      In {| filename := fn; score := 0;
            justification := ("Error rating CV: " ++ e)%string |} ranked.
Proof.
  do 3 eexists. split; [apply run_matching_and_rating_run|].
  assert (Hperm : Permutation
            (map filename (sort_by_score_desc (ratings_from w job t cv_data)))
            (map fst cv_data)).
  { rewrite <- (ratings_from_filenames w job cv_data t).
    apply Permutation_map, sort_by_score_desc_perm. }
  split; [exact Hperm|].
  split.
  { apply Permutation_length in Hperm. now rewrite !length_map in Hperm. }
  intros pre fn cv post st1 t1 e -> Hpre Hs He.
  rewrite rate_loop_run in Hpre. inversion Hpre as [[Hst Ht1]].
  eapply Permutation_in;
    [apply Permutation_sym, sort_by_score_desc_perm|].
  rewrite ratings_from_app. apply in_or_app. right.
  cbn [ratings_from]. rewrite Hs. left.
  unfold rating_of, rate_outcome. rewrite Ht1, He. reflexivity.
Qed.

(** A failing scoring call in the middle of a batch: the candidate is
    ranked last with score 0 and the error description, the others are
    rated as usual. *)
Example scoring_failure_in_the_middle :
  let a := {| filename := "A"; score := 80;
              justification := "partial match" |} in
  let x := {| filename := "X"; score := 0;
              justification := "Error rating CV: 503 service unavailable" |} in
  let b := {| filename := "B"; score := 95;
              justification := "strong match" |} in
  _run_matching_and_rating mocked_world "Requires: Python, 3 yrs"
      [("A", profile "profile A"); ("X", profile "profile X");
       ("B", profile "profile B")] []
  = (Ok (Some b, [b; a; x]),
     [RateCall "Requires: Python, 3 yrs" "profile A";
      RateCall "Requires: Python, 3 yrs" "profile X";
      RateCall "Requires: Python, 3 yrs" "profile B"]).
Proof. reflexivity. Qed.

(** ** Ingestion in closed form *)

Section Ingestion.

Variable w : world.

Lemma render_pages_all (imgs acc : list bytes) :
  render_pages (map Ok imgs) acc = Ok (acc ++ imgs).
Proof.
  revert acc. induction imgs as [|img imgs IH]; intros acc; cbn.
  - now rewrite app_nil_r.
  - rewrite IH. now rewrite <- app_assoc.
Qed.

Lemma render_pages_first_failure (done : list bytes) (e : string)
    (rest : list (result bytes)) (acc : list bytes) :
  render_pages (map Ok done ++ Raise e :: rest) acc = Raise e.
Proof.
  revert acc. induction done as [|img done IH]; intros acc; cbn; [reflexivity|].
  apply IH.
Qed.

(** Every list of page outcomes is all [Ok], or has a first [Raise]. *)
Lemma page_outcomes_split (rs : list (result bytes)) :
  (exists imgs, rs = map Ok imgs) \/
  (exists done e rest, rs = map Ok done ++ Raise e :: rest).
Proof.
  induction rs as [|[img|e] rs IH].
  - left. now exists [].
  - destruct IH as [[imgs ->]|(done & e & rest & ->)].
    + left. now exists (img :: imgs).
    + right. now exists (img :: done), e, rest.
  - right. now exists [], e, rs.
Qed.

Lemma convert_pdf_to_images_run (pdf_path : string) (t : trace) :
  convert_pdf_to_images w pdf_path t
  = (Ok (pdf_images w t pdf_path), t ++ [FitzOpen pdf_path]).
Proof.
  unfold convert_pdf_to_images, pdf_images, try_except, bind, call, lift, ret.
  destruct (fitz_open w t pdf_path) as [doc|e]; [|reflexivity].
  destruct (render_pages (pages doc) []) as [imgs|e]; [|reflexivity].
  destruct (close doc); reflexivity.
Qed.

Lemma load_images_run (file_path : string) (t : trace) :
  load_images w file_path t
  = (Ok (images_of w t file_path), t ++ [load_event file_path]).
Proof.
  unfold load_images, images_of, load_event.
  destruct (is_pdf file_path).
  - unfold bind. now rewrite convert_pdf_to_images_run.
  - unfold try_except, bind, call, lift, ret.
    destruct (file_read w t file_path); reflexivity.
Qed.

Lemma get_text_from_image_data_run (image_data : bytes) (t : trace) :
  get_text_from_image_data w image_data t
  = (Ok (page_text w t image_data), t ++ [VisionCall image_data]).
Proof.
  unfold get_text_from_image_data, page_text, try_except, bind, call, raise, ret.
  destruct (vision_model w t image_data) as [e| |[|c cs]]; reflexivity.
Qed.

Lemma extract_pages_run (imgs : list bytes) (acc : list string) (t : trace) :
  extract_pages w imgs acc t
  = (Ok (acc ++ texts_from w t imgs), t ++ map VisionCall imgs).
Proof.
  revert acc t. induction imgs as [|img imgs IH]; intros acc t.
  - cbn. now rewrite !app_nil_r.
  - cbn [extract_pages texts_from map]. unfold bind.
    rewrite get_text_from_image_data_run, IH.
    now rewrite <- !app_assoc.
Qed.

Lemma texts_from_length (imgs : list bytes) (t : trace) :
  List.length (texts_from w t imgs) = List.length imgs.
Proof.
  revert t. induction imgs as [|img imgs IH]; intros t; cbn; [reflexivity|].
  now rewrite IH.
Qed.

Lemma texts_from_nth (imgs : list bytes) (t : trace) (i : nat) (img : bytes) :
  nth_error imgs i = Some img ->
  nth_error (texts_from w t imgs) i
  = Some (page_text w (t ++ map VisionCall (firstn i imgs)) img).
Proof.
  revert t i. induction imgs as [|x imgs IH]; intros t [|i] H; try discriminate.
  - cbn in *. inversion H; subst. now rewrite app_nil_r.
  - cbn [nth_error texts_from firstn map] in *.
    rewrite (IH _ _ H). now rewrite <- app_assoc.
Qed.

Lemma process_document_run (file_path : string) (is_single_file : bool)
    (t : trace) :
  _process_document_to_text_list w (OnePath file_path) is_single_file t
  = (Ok (doc_text w t file_path), doc_trace w t file_path).
Proof.
  unfold _process_document_to_text_list, doc_text, doc_trace, pages_of.
  cbn [process_files]. unfold bind. rewrite load_images_run.
  destruct (images_of w t file_path) as [imgs|].
  - rewrite extract_pages_run. cbn [app].
    destruct is_single_file; reflexivity.
  - cbn. now rewrite app_nil_r.
Qed.

Lemma parse_cv_run (cv_text : string) (t : trace) :
  parse_cv_skills_and_experience w cv_text t
  = (Ok (parse_outcome w t cv_text),
     t ++ [ParseCvCall (substring 0 6000 cv_text)]).
Proof.
  unfold parse_cv_skills_and_experience, parse_outcome, try_except, bind, call,
    raise, ret.
  destruct (parse_cv_model w t (substring 0 6000 cv_text)); reflexivity.
Qed.

Lemma cv_step_run (d : dict) (file_path : string) (t : trace) :
  cv_step w d file_path t
  = (Ok (dict_set (basename file_path) (entry_of w t file_path) d),
     trace_of w t file_path).
Proof.
  unfold cv_step, entry_of, trace_of, bind.
  rewrite process_document_run.
  destruct (PyStr.truthy (PyStr.strip (doc_text w t file_path))); [|reflexivity].
  now rewrite parse_cv_run.
Qed.

Lemma cv_loop_app (pre post : list string) (d : dict) (t : trace) :
  cv_loop w (pre ++ post) d t
  = match cv_loop w pre d t with
    | (Ok d1, t1) => cv_loop w post d1 t1
    | (Raise e, t1) => (Raise e, t1)
    end.
Proof.
  revert d t. induction pre as [|p pre IH]; intros d t; [reflexivity|].
  cbn [app cv_loop]. unfold bind. rewrite cv_step_run. apply IH.
Qed.

Lemma cv_loop_returns (file_paths : list string) (d : dict) (t : trace) :
  exists d' t', cv_loop w file_paths d t = (Ok d', t').
Proof.
  revert d t. induction file_paths as [|p ps IH]; intros d t.
  - now exists d, t.
  - cbn [cv_loop]. unfold bind. rewrite cv_step_run. apply IH.
Qed.

End Ingestion.

(** ** The candidate mapping *)

Section CandidateMapping.
Import PyStr.

Lemma dict_get_set_same (k : string) (v : cv_info) (d : dict) :
  dict_get k (dict_set k v d) = Some v.
Proof.
  induction d as [|[k' v'] d IH]; cbn.
  - now rewrite String.eqb_refl.
  - destruct (String.eqb_spec k' k) as [->|Hne]; cbn.
    + now rewrite String.eqb_refl.
    + apply String.eqb_neq in Hne. now rewrite Hne.
Qed.

Lemma dict_get_set_other (k k0 : string) (v : cv_info) (d : dict) :
  k <> k0 -> dict_get k0 (dict_set k v d) = dict_get k0 d.
Proof.
  intros Hne. induction d as [|[k' v'] d IH]; cbn.
  - assert (H : String.eqb k k0 = false) by now apply String.eqb_neq.
    now rewrite H.
  - destruct (String.eqb_spec k' k) as [->|Hk]; cbn.
    + apply String.eqb_neq in Hne. now rewrite Hne.
    + now rewrite IH.
Qed.

Lemma dict_set_length (k : string) (v : cv_info) (d : dict) :
  (List.length (dict_set k v d) <= S (List.length d))%nat.
Proof.
  induction d as [|[k' v'] d IH]; cbn; [lia|].
  destruct (String.eqb k' k); cbn; lia.
Qed.

Lemma split_char_nonempty (sep : ascii) (s : string) : split_char sep s <> [].
Proof.
  destruct s as [|c s]; cbn; [discriminate|].
  destruct (Ascii.eqb c sep); [discriminate|].
  destruct (split_char sep s); discriminate.
Qed.

Lemma last_cons_nonempty (x : string) (l : list string) (dflt : string) :
  l <> [] -> last (x :: l) dflt = last l dflt.
Proof. destruct l; [congruence | reflexivity]. Qed.

Lemma split_char_many (sep : ascii) (a b : string) :
  exists h l, split_char sep (a ++ String sep b) = h :: l /\ l <> [] /\
              last l "" = last (split_char sep b) "".
Proof.
  induction a as [|c a (h & l & Heq & Hne & Hlast)]; cbn [append split_char].
  - rewrite Ascii.eqb_refl. exists "", (split_char sep b).
    split; [reflexivity|]. split; [apply split_char_nonempty | reflexivity].
  - rewrite Heq. destruct (Ascii.eqb c sep).
    + exists "", (h :: l). split; [reflexivity|]. split; [discriminate|].
      now rewrite last_cons_nonempty.
    + exists (String c h), l. now repeat split.
Qed.

Lemma split_char_single (sep : ascii) (s : string) :
  all (fun c => negb (Ascii.eqb c sep)) s = true -> split_char sep s = [s].
Proof.
  induction s as [|c s IH]; cbn; [reflexivity|].
  intros H. apply andb_prop in H as [Hc Hs].
  apply negb_true_iff in Hc. rewrite Hc, (IH Hs). reflexivity.
Qed.

(** The key of a candidate is what follows the last slash of the path. *)
Lemma basename_after_last_slash (dir name : string) :
  all (fun c => negb (Ascii.eqb c "/")) name = true ->
  basename (dir ++ String "/" name) = name.
Proof.
  intros Hname. unfold basename.
  destruct (split_char_many "/" dir name) as (h & l & Heq & Hne & Hlast).
  rewrite Heq, last_cons_nonempty by assumption.
  rewrite Hlast, split_char_single by assumption. reflexivity.
Qed.

Lemma basename_without_slash (name : string) :
  all (fun c => negb (Ascii.eqb c "/")) name = true -> basename name = name.
Proof.
  intros Hname. unfold basename. now rewrite split_char_single.
Qed.

Variable w : world.

Lemma cv_loop_keeps_other_keys (file_paths : list string) (k : string)
    (d d' : dict) (t t' : trace) :
  ~ In k (map basename file_paths) ->
  cv_loop w file_paths d t = (Ok d', t') ->
  dict_get k d' = dict_get k d.
Proof.
  revert d t. induction file_paths as [|p ps IH]; intros d t Hk Hrun.
  - cbn in Hrun. now inversion Hrun.
  - cbn [cv_loop] in Hrun. unfold bind in Hrun. rewrite cv_step_run in Hrun.
    cbn [map] in Hk. rewrite (IH _ _ (fun H => Hk (or_intror H)) Hrun).
    apply dict_get_set_other. intros Heq. apply Hk. now left.
Qed.

Lemma cv_loop_keeps_keys (file_paths : list string) (k : string)
    (d d' : dict) (t t' : trace) :
  dict_get k d <> None ->
  cv_loop w file_paths d t = (Ok d', t') ->
  dict_get k d' <> None.
Proof.
  revert d t. induction file_paths as [|p ps IH]; intros d t Hk Hrun.
  - cbn in Hrun. now inversion Hrun; subst.
  - cbn [cv_loop] in Hrun. unfold bind in Hrun. rewrite cv_step_run in Hrun.
    refine (IH _ _ _ Hrun).
    destruct (String.eqb_spec (basename p) k) as [<-|Hne].
    + rewrite dict_get_set_same. discriminate.
    + now rewrite dict_get_set_other.
Qed.

Lemma cv_loop_has_keys (file_paths : list string) (p : string)
    (d d' : dict) (t t' : trace) :
  In p file_paths ->
  cv_loop w file_paths d t = (Ok d', t') ->
  dict_get (basename p) d' <> None.
Proof.
  revert d t. induction file_paths as [|q ps IH]; intros d t Hin Hrun;
    [contradiction|].
  cbn [cv_loop] in Hrun. unfold bind in Hrun. rewrite cv_step_run in Hrun.
  destruct Hin as [->|Hin].
  - refine (cv_loop_keeps_keys _ _ _ _ _ _ _ Hrun).
    rewrite dict_get_set_same. discriminate.
  - now apply (IH _ _ Hin Hrun).
Qed.

Lemma cv_loop_length (file_paths : list string) (d d' : dict) (t t' : trace) :
  cv_loop w file_paths d t = (Ok d', t') ->
  (List.length d' <= List.length d + List.length file_paths)%nat.
Proof.
  revert d t. induction file_paths as [|q ps IH]; intros d t Hrun.
  - cbn in Hrun. inversion Hrun; subst. lia.
  - cbn [cv_loop] in Hrun. unfold bind in Hrun. rewrite cv_step_run in Hrun.
    apply IH in Hrun.
    pose proof (dict_set_length (basename q) (entry_of w t q) d). cbn. lia.
Qed.

End CandidateMapping.

(** ** Ingestion: results *)

(** C10.  [convert_pdf_to_images] returns for every path, and what it
    returns is empty or the images of all pages of the document in page
    order.  When a page fails to render after others were converted, the
    converted ones are dropped and the empty list is returned. *)
Theorem pdf_conversion_is_all_or_nothing
    (w : world) (pdf_path : string) (t : trace) :
  exists imgs,
    convert_pdf_to_images w pdf_path t = (Ok imgs, t ++ [FitzOpen pdf_path]) /\
    (imgs = [] \/
     exists doc, fitz_open w t pdf_path = Ok doc /\ pages doc = map Ok imgs /\
                 List.length imgs = page_count doc) /\
    (forall doc done e rest,
       fitz_open w t pdf_path = Ok doc ->
       pages doc = map Ok done ++ Raise e :: rest ->
       imgs = []).
Proof.
  exists (pdf_images w t pdf_path).
  split; [apply convert_pdf_to_images_run|].
  unfold pdf_images. split.
  - destruct (fitz_open w t pdf_path) as [doc|e]; [|now left].
    destruct (page_outcomes_split (pages doc))
      as [[imgs Hall]|(done & e & rest & Hfail)].
    + rewrite Hall, render_pages_all. cbn [app].
      destruct (close doc); [|now left].
      right. exists doc. repeat split; try assumption.
      unfold page_count. now rewrite Hall, length_map.
    + rewrite Hfail, render_pages_first_failure. now left.
  - intros doc done e rest Hopen Hfail.
    now rewrite Hopen, Hfail, render_pages_first_failure.
Qed.

(** C7 fails as stated.  The PDF opens and has two pages, the second
    cannot be rendered: the rasterizer returns no page at all. *)
Lemma torn_pdf_yields_no_pages :
  exists doc,
    fitz_open office_world [] "cvs/torn.pdf" = Ok doc /\
    page_count doc = 2%nat /\
    convert_pdf_to_images office_world "cvs/torn.pdf" []
    = (Ok [], [FitzOpen "cvs/torn.pdf"]) /\
    load_images office_world "cvs/torn.pdf" []
    = (Ok (Some []), [FitzOpen "cvs/torn.pdf"]).
Proof. eexists. repeat split. Qed.

(** C7, amended.  For a PDF of N pages that opens, renders every page and
    closes without an exception, the rasterizer returns exactly the N page
    images in page order; when opening, rendering or closing raises, it
    returns the empty list.  For any other file that can be read it returns
    exactly one element, the bytes of the file as read. *)
Theorem rasterizer_returns_every_page_or_none
    (w : world) (file_path : string) (t : trace) :
  (is_pdf file_path = true ->
   exists imgs,
     convert_pdf_to_images w file_path t
     = (Ok imgs, t ++ [FitzOpen file_path]) /\
     load_images w file_path t
     = (Ok (Some imgs), t ++ [FitzOpen file_path]) /\
     (forall doc rendered,
        fitz_open w t file_path = Ok doc ->
        pages doc = map Ok rendered -> close doc = Ok tt ->
        imgs = rendered /\ List.length imgs = page_count doc) /\
     (forall e, fitz_open w t file_path = Raise e -> imgs = []) /\
     (forall doc done e rest,
        fitz_open w t file_path = Ok doc ->
        pages doc = map Ok done ++ Raise e :: rest -> imgs = []) /\
     (forall doc e,
        fitz_open w t file_path = Ok doc -> close doc = Raise e ->
        imgs = [])) /\
  (is_pdf file_path = false ->
   forall data,
     file_read w t file_path = Ok data ->
     load_images w file_path t = (Ok (Some [data]), t ++ [FileRead file_path])).
Proof.
  split.
  - intros Hpdf. exists (pdf_images w t file_path).
    split; [apply convert_pdf_to_images_run|].
    split.
    { rewrite load_images_run. unfold images_of, load_event. now rewrite Hpdf. }
    unfold pdf_images. split; [|split; [|split]].
    + intros doc rendered Hopen Hall Hclose.
      rewrite Hopen, Hall, render_pages_all, Hclose. cbn [app].
      split; [reflexivity|].
      unfold page_count. now rewrite Hall, length_map.
    + intros e He. now rewrite He.
    + intros doc done e rest Hopen Hfail.
      now rewrite Hopen, Hfail, render_pages_first_failure.
    + intros doc e Hopen Hclose. rewrite Hopen, Hclose.
      now destruct (render_pages (pages doc) []).
  - intros Hpdf data Hread. rewrite load_images_run.
    unfold images_of, load_event. now rewrite Hpdf, Hread.
Qed.

(** C6.  The raw text of a document is the list of its page texts joined
    by two line feeds, one text per page image and in page order, each
    being what the extraction of that page returned when its turn came:
    the concatenated text parts of the first candidate, and the empty text
    when the call raises, answers nothing or has no candidate.  A document
    that cannot be read has no pages and the empty raw text. *)
Theorem raw_text_joins_one_text_per_page
    (w : world) (file_path : string) (is_single_file : bool) (t : trace) :
  exists loaded imgs texts t',
    load_images w file_path t = (Ok loaded, t ++ [load_event file_path]) /\
    imgs = match loaded with Some l => l | None => [] end /\
    _process_document_to_text_list w (OnePath file_path) is_single_file t
    = (Ok (PyStr.join (String "010" (String "010" "")) texts), t') /\
    List.length texts = List.length imgs /\
    forall i img,
      nth_error imgs i = Some img ->
      exists text,
        nth_error texts i = Some text /\
        get_text_from_image_data w img
          ((t ++ [load_event file_path]) ++ map VisionCall (firstn i imgs))
        = (Ok text,
           (t ++ [load_event file_path]) ++ map VisionCall (firstn (S i) imgs)) /\
        match vision_model w
                ((t ++ [load_event file_path]) ++ map VisionCall (firstn i imgs))
                img with
        | VCandidates (c :: _) => text = PyStr.join "" (text_parts c)
        | VCandidates [] => text = ""
        | VFalsy => text = ""
        | VRaises _ => text = ""
        end.
Proof.
  exists (images_of w t file_path), (pages_of w t file_path),
         (texts_from w (t ++ [load_event file_path]) (pages_of w t file_path)),
         (doc_trace w t file_path).
  split; [apply load_images_run|].
  split; [reflexivity|].
  split; [apply process_document_run|].
  split; [apply texts_from_length|].
  intros i img Hnth.
  exists (page_text w ((t ++ [load_event file_path])
                       ++ map VisionCall (firstn i (pages_of w t file_path)))
                    img).
  split; [apply texts_from_nth; exact Hnth|].
  split.
  - rewrite get_text_from_image_data_run. f_equal.
    rewrite <- app_assoc. f_equal.
    revert i Hnth. generalize (pages_of w t file_path).
    induction l as [|x l IH]; intros [|i] Hnth; try discriminate.
    + cbn in *. now inversion Hnth.
    + cbn [firstn map app]. cbn [nth_error] in Hnth.
      rewrite (IH i Hnth). reflexivity.
  - unfold page_text.
    now destruct (vision_model w _ img) as [e| |[|c cs]].
Qed.

(** The PDF of two pages: one vision call per page, and the raw text is
    the two page texts with two line feeds between them. *)
Example two_page_pdf_text :
  _process_document_to_text_list office_world (OnePath "cvs/bob.pdf") false []
  = (Ok ("Jane Doe, Python" ++ newline ++ newline ++ "J. Doe, Java")%string,
     [FitzOpen "cvs/bob.pdf"; VisionCall page1; VisionCall page2]).
Proof. reflexivity. Qed.

Lemma failed_document_entry (w : world) (t : trace) (file_path : string) :
  rasterization_fails w t file_path \/ no_extractable_text w t file_path ->
  entry_of w t file_path = no_text_entry /\
  trace_of w t file_path = doc_trace w t file_path.
Proof.
  intros Hfail.
  assert (Hblank : PyStr.strip (doc_text w t file_path) = "").
  { destruct Hfail as [[t1 Hl]|(text & t1 & Hrun & Hblank)].
    - rewrite load_images_run in Hl. unfold doc_text, pages_of.
      destruct Hl as [Hl|Hl]; inversion Hl as [[Himg Ht]];
        rewrite Himg; reflexivity.
    - rewrite process_document_run in Hrun. now inversion Hrun; subst. }
  unfold entry_of, trace_of. now rewrite Hblank.
Qed.

(** C8 fails as stated.  The image archive/jane.png is read and gets its
    profile; the later file lost/jane.png cannot be read.  Both have the
    key jane.png, so the no-text entry of the failed file replaces the
    entry of the good one: the failure does not stay with its own
    document. *)
Lemma failed_namesake_replaces_a_good_document :
  let good := {| text_raw := "J. Doe, Java";
                 parsed_info := "Skills of J. Doe, Java" |} in
  let t1 := [FileRead "archive/jane.png"; VisionCall page2;
             ParseCvCall "J. Doe, Java"] in
  _run_cv_processing office_world ["archive/jane.png"] []
  = (Ok ([("jane.png", good)], 1%nat), t1) /\
  skipped good = false /\
  rasterization_fails office_world t1 "lost/jane.png" /\
  _run_cv_processing office_world ["archive/jane.png"; "lost/jane.png"] []
  = (Ok ([("jane.png", no_text_entry)], 2%nat),
     t1 ++ [FileRead "lost/jane.png"]) /\
  skipped no_text_entry = true.
Proof.
  cbv zeta. split; [reflexivity|]. split; [reflexivity|].
  split; [|split; reflexivity].
  eexists. left. reflexivity.
Qed.

(** C8, amended.  In a batch, a document whose rasterization fails or
    whose raw text is blank is stored with the no-text profile, which the
    matching engine skips; the events of its processing contain no call of
    the profile service.  The loop goes on with the remaining documents:
    the batch returns and every file of the batch has an entry.  Every
    document of the batch whose name no later file shares ends with the
    entry of its own processing: the no-text entry when its raw text is
    blank, and otherwise its raw text together with what the profile
    service call for that text returned. *)
Theorem failed_document_is_isolated
    (w : world) (pre : list string) (file_path : string) (post : list string)
    (t : trace) (d1 : dict) (t1 : trace) :
  cv_loop w pre [] t = (Ok d1, t1) ->
  rasterization_fails w t1 file_path \/ no_extractable_text w t1 file_path ->
  exists evs d' t',
    cv_step w d1 file_path t1
    = (Ok (dict_set (basename file_path) no_text_entry d1), t1 ++ evs) /\
    forallb (fun ev => negb (is_parse_call ev)) evs = true /\
    skipped no_text_entry = true /\
    cv_loop w (pre ++ file_path :: post) [] t = (Ok d', t') /\
    cv_loop w post (dict_set (basename file_path) no_text_entry d1) (t1 ++ evs)
    = (Ok d', t') /\
    (forall p, In p (pre ++ file_path :: post) ->
               dict_get (basename p) d' <> None) /\
    (forall a q b da ta,
       pre ++ file_path :: post = a ++ q :: b ->
       ~ In (basename q) (map basename b) ->
       cv_loop w a [] t = (Ok da, ta) ->
       exists full_text tq,
         _process_document_to_text_list w (OnePath q) false ta
         = (Ok full_text, tq) /\
         (PyStr.truthy (PyStr.strip full_text) = false ->
          dict_get (basename q) d' = Some no_text_entry) /\
         (PyStr.truthy (PyStr.strip full_text) = true ->
          exists parsed,
            parse_cv_skills_and_experience w full_text tq
            = (Ok parsed, tq ++ [ParseCvCall (substring 0 6000 full_text)]) /\
            parsed
            = match parse_cv_model w tq (substring 0 6000 full_text) with
              | Raises e => ("Error parsing CV: " ++ e)%string
              | Falsy => "Could not parse CV."
              | Text p => p
              end /\
            dict_get (basename q) d'
            = Some {| text_raw := full_text; parsed_info := parsed |})).
Proof.
  intros Hpre Hfail.
  destruct (failed_document_entry w t1 file_path Hfail) as [Hentry Htrace].
  destruct (cv_loop_returns w (pre ++ file_path :: post) [] t)
    as (d' & t' & Hrun).
  exists ([load_event file_path] ++ map VisionCall (pages_of w t1 file_path)),
         d', t'.
  assert (Hstep : cv_step w d1 file_path t1
                  = (Ok (dict_set (basename file_path) no_text_entry d1),
                     t1 ++ [load_event file_path]
                        ++ map VisionCall (pages_of w t1 file_path))).
  { rewrite cv_step_run, Hentry, Htrace. unfold doc_trace.
    now rewrite <- app_assoc. }
  split; [exact Hstep|].
  split.
  { cbn [app forallb]. apply andb_true_iff. split.
    - unfold load_event. now destruct (is_pdf file_path).
    - apply forallb_forall. intros ev Hin. apply in_map_iff in Hin.
      destruct Hin as (img & <- & _). reflexivity. }
  split; [reflexivity|].
  split; [exact Hrun|].
  split.
  { rewrite cv_loop_app, Hpre in Hrun. cbn [cv_loop] in Hrun.
    unfold bind in Hrun. now rewrite Hstep in Hrun. }
  split.
  { intros p Hin. now apply (cv_loop_has_keys w _ p _ _ _ _ Hin Hrun). }
  assert (Hown : forall a q b da ta,
             pre ++ file_path :: post = a ++ q :: b ->
             ~ In (basename q) (map basename b) ->
             cv_loop w a [] t = (Ok da, ta) ->
             dict_get (basename q) d' = Some (entry_of w ta q)).
  { intros a q b da ta Heq Hlast Ha.
    rewrite Heq, cv_loop_app, Ha in Hrun. cbn [cv_loop] in Hrun.
    unfold bind in Hrun. rewrite cv_step_run in Hrun.
    rewrite (cv_loop_keeps_other_keys w b (basename q) _ _ _ _ Hlast Hrun).
    apply dict_get_set_same. }
  intros a q b da ta Heq Hlast Ha.
  exists (doc_text w ta q), (doc_trace w ta q).
  split; [apply process_document_run|].
  rewrite (Hown a q b da ta Heq Hlast Ha). unfold entry_of.
  split; intros Htext; rewrite Htext; [reflexivity|].
  exists (parse_outcome w (doc_trace w ta q) (doc_text w ta q)).
  split; [apply parse_cv_run|]. split; reflexivity.
Qed.

(** The theorem at a batch whose first file is the PDF with a page that
    cannot be rendered: the image after it gets its profile. *)
Lemma failed_document_is_isolated_witness :
  exists d' t',
    cv_loop office_world ["cvs/torn.pdf"; "archive/jane.png"] [] []
    = (Ok d', t') /\
    dict_get "torn.pdf" d' = Some no_text_entry /\
    dict_get "jane.png" d'
    = Some {| text_raw := "J. Doe, Java";
              parsed_info := "Skills of J. Doe, Java" |}.
Proof.
  destruct (failed_document_is_isolated office_world [] "cvs/torn.pdf"
              ["archive/jane.png"] [] [] [] eq_refl)
    as (evs & d' & t' & _ & _ & _ & Hrun & _ & _ & Hown).
  - left. exists [FitzOpen "cvs/torn.pdf"]. right. reflexivity.
  - exists d', t'. split; [exact Hrun|]. split.
    + destruct (Hown [] "cvs/torn.pdf" ["archive/jane.png"] [] [] eq_refl)
        as (full_text & tq & Hdoc & Hblank & _).
      * cbn. intros [H|[]]. discriminate H.
      * reflexivity.
      * inversion Hdoc; subst. now apply Hblank.
    + destruct (Hown ["cvs/torn.pdf"] "archive/jane.png" []
                  [("torn.pdf", no_text_entry)] [FitzOpen "cvs/torn.pdf"]
                  eq_refl)
        as (full_text & tq & Hdoc & _ & Htext).
      * intros [].
      * reflexivity.
      * inversion Hdoc; subst.
        destruct (Htext eq_refl) as (parsed & _ & Hparsed & Hget).
        change (basename "archive/jane.png") with "jane.png" in Hget.
        rewrite Hget, Hparsed. reflexivity.
Defined.

(** C9.  The loop body stores a document under the part of its path after
    the last slash.  Two paths with the same such name give one candidate:
    the entry of the later file replaces that of the earlier one, so two
    uploaded files leave one candidate and one rating.  A batch never
    leaves more candidates than it has files.  The two files named
    jane.png of the example leave one candidate, the later one. *)
Theorem candidates_are_keyed_by_basename :
  (forall (w : world) d file_path t,
     exists entry t',
       cv_step w d file_path t
       = (Ok (dict_set (basename file_path) entry d), t')) /\
  (forall dir name,
     PyStr.all (fun c => negb (Ascii.eqb c "/")) name = true ->
     basename (dir ++ String "/" name) = name /\ basename name = name) /\
  (forall (w : world) p1 p2 t,
     basename p1 = basename p2 ->
     exists entry1 t1 entry2 t2,
       cv_step w [] p1 t = (Ok [(basename p1, entry1)], t1) /\
       cv_step w [] p2 t1 = (Ok [(basename p2, entry2)], t2) /\
       _run_cv_processing w [p1; p2] t
       = (Ok ([(basename p2, entry2)], 2%nat), t2) /\
       (List.length [(basename p2, entry2)] < List.length [p1; p2])%nat /\
       forall job t0,
         exists top ranked t3,
           _run_matching_and_rating w job [(basename p2, entry2)] t0
           = (Ok (top, ranked), t3) /\
           List.length ranked = 1%nat) /\
  (forall (w : world) file_paths t,
     exists new_cv_data t',
       _run_cv_processing w file_paths t
       = (Ok (new_cv_data, List.length file_paths), t') /\
       (List.length new_cv_data <= List.length file_paths)%nat) /\
  _run_cv_processing office_world ["inbox/jane.png"; "archive/jane.png"] []
  = (Ok ([("jane.png",
           {| text_raw := "J. Doe, Java";
              parsed_info := "Skills of J. Doe, Java" |})], 2%nat),
     [FileRead "inbox/jane.png"; VisionCall page1;
      ParseCvCall "Jane Doe, Python";
      FileRead "archive/jane.png"; VisionCall page2;
      ParseCvCall "J. Doe, Java"]).
Proof.
  split; [|split; [|split; [|split]]].
  - intros w d file_path t. do 2 eexists. apply cv_step_run.
  - intros dir name Hname. split.
    + now apply basename_after_last_slash.
    + now apply basename_without_slash.
  - intros w p1 p2 t Hsame.
    exists (entry_of w t p1), (trace_of w t p1),
           (entry_of w (trace_of w t p1) p2),
           (trace_of w (trace_of w t p1) p2).
    split; [apply cv_step_run|].
    split; [apply cv_step_run|].
    split.
    { unfold _run_cv_processing, bind. cbn [cv_loop]. unfold bind.
      rewrite !cv_step_run. cbn [dict_set].
      rewrite Hsame, String.eqb_refl. reflexivity. }
    split; [cbn; lia|].
    intros job t0.
    destruct (matching_returns_one_rating_each w job
                [(basename p2, entry_of w (trace_of w t p1) p2)] t0)
      as (top & ranked & t3 & Hrun & Hlen).
    now exists top, ranked, t3.
  - intros w file_paths t.
    destruct (cv_loop_returns w file_paths [] t) as (d & t' & Hrun).
    exists d, t'. split.
    + unfold _run_cv_processing, bind. now rewrite Hrun.
    + apply (cv_loop_length w _ _ _ _ _ Hrun).
  - reflexivity.
Qed.

(** X19.  What the engine does for the candidates it skips: each is
    ranked with score 0 and the fixed justification, and the scoring
    service is called for the other candidates only, once each and in the
    order of the mapping. *)
Lemma skipped_candidates_get_the_skipped_rating
    (w : world) (job : string) (cv_data : dict) (t : trace) :
  exists top ranked,
    _run_matching_and_rating w job cv_data t
    = (Ok (top, ranked),
       t ++ map (fun item => RateCall job (parsed_info (snd item)))
                (filter rated cv_data)) /\
    forall fn cv,
      In (fn, cv) cv_data -> skipped cv = true ->
      In {| filename := fn; score := 0;
            justification := "Skipped due to failed text/profile extraction." |}
         ranked.
Proof.
  do 2 eexists. split.
  - rewrite run_matching_and_rating_run, trace_after_calls. reflexivity.
  - intros fn cv Hin Hs.
    eapply Permutation_in;
      [apply Permutation_sym, sort_by_score_desc_perm|].
    now apply ratings_from_skipped with (cv := cv).
Qed.

(** C2, at the input where the code departs from it.  The profile service
    raises for the CV inbox/jane.png, so ingestion stores the error
    description as its profile.  The engine does not skip this candidate:
    it calls the scoring service with the error description as the
    candidate profile and records the score of the reply, 40, instead of
    score 0 with the justification of skipped candidates. *)
Theorem failed_profile_call_is_scored_not_skipped :
  let entry := {| text_raw := "Jane Doe, Python";
                  parsed_info := "Error parsing CV: 429 quota exceeded" |} in
  let r := {| filename := "jane.png"; score := 40;
              justification := "little to go on" |} in
  parse_cv_model office_world [FileRead "inbox/jane.png"; VisionCall page1]
                 "Jane Doe, Python"
  = Raises "429 quota exceeded" /\
  _run_cv_processing office_world ["inbox/jane.png"] []
  = (Ok ([("jane.png", entry)], 1%nat),
     [FileRead "inbox/jane.png"; VisionCall page1;
      ParseCvCall "Jane Doe, Python"]) /\
  skipped entry = false /\
  _run_matching_and_rating office_world "Requires: Python, 3 yrs"
      [("jane.png", entry)] []
  = (Ok (Some r, [r]),
     [RateCall "Requires: Python, 3 yrs"
               "Error parsing CV: 429 quota exceeded"]).
Proof. repeat split. Qed.

(** * Further properties of the program *)

(** ** Substring search and stripping *)

Section Searching.
Import PyStr StrFacts.

Lemma occurs_at_shift (needle : string) (c : ascii) (s : string) (i : nat) :
  occurs_at needle (String c s) (S i) <-> occurs_at needle s i.
Proof.
  split.
  - intros (pre & post & Heq & Hlen).
    destruct pre as [|c' pre]; [discriminate|].
    cbn in Heq, Hlen. inversion Heq; subst.
    exists pre, post. split; [reflexivity | now inversion Hlen].
  - intros (pre & post & -> & <-). now exists (String c pre), post.
Qed.

Lemma occurs_at_zero (needle s : string) :
  occurs_at needle s 0 <-> exists r, strip_prefix needle s = Some r.
Proof.
  split.
  - intros (pre & post & -> & Hlen). apply length_zero in Hlen. subst pre.
    exists post. now apply strip_prefix_spec.
  - intros [r Hr]. apply strip_prefix_spec in Hr. now exists "", r.
Qed.

Lemma find_after_some (needle text rest : string) :
  find_after needle text = Some rest <-> first_followed_by needle text rest.
Proof.
  revert rest. induction text as [|c text IH]; intros rest.
  - cbn [find_after]. destruct (strip_prefix needle "") as [r|] eqn:Hp.
    + split.
      * intros H; inversion H; subst. exists "". split.
        -- apply strip_prefix_spec in Hp. exact Hp.
        -- intros j Hj. cbn in Hj. lia.
      * intros (pre & Heq & _). f_equal.
        destruct pre; [|discriminate]. cbn in Heq.
        apply strip_prefix_spec in Hp.
        destruct needle; [cbn in *; congruence | discriminate].
    + split; [discriminate|]. intros (pre & Heq & _).
      destruct pre; [|discriminate]. cbn in Heq.
      apply strip_prefix_spec in Heq. congruence.
  - cbn [find_after].
    destruct (strip_prefix needle (String c text)) as [r|] eqn:Hp.
    + split.
      * intros H; inversion H; subst. exists "". split.
        -- apply strip_prefix_spec in Hp. exact Hp.
        -- intros j Hj. cbn in Hj. lia.
      * intros (pre & Heq & Hmin). f_equal. destruct pre as [|c' pre].
        -- cbn in Heq. apply strip_prefix_spec in Heq.
           congruence.
        -- exfalso. apply (Hmin 0%nat); [cbn; lia|].
           apply occurs_at_zero. eauto.
    + rewrite IH. split.
      * intros (pre & Heq & Hmin). exists (String c pre). split.
        -- cbn. now rewrite Heq.
        -- intros [|j] Hj Hocc.
           ++ apply occurs_at_zero in Hocc as [r Hr]. congruence.
           ++ apply occurs_at_shift in Hocc. apply (Hmin j); [cbn in Hj; lia|].
              exact Hocc.
      * intros (pre & Heq & Hmin). destruct pre as [|c' pre].
        -- cbn in Heq. apply strip_prefix_spec in Heq.
           congruence.
        -- cbn in Heq. inversion Heq; subst. exists pre. split; [reflexivity|].
           intros j Hj Hocc. apply (Hmin (S j)); [cbn; lia|].
           now apply occurs_at_shift.
Qed.

Lemma find_after_none (needle text : string) :
  find_after needle text = None <-> forall i, ~ occurs_at needle text i.
Proof.
  induction text as [|c text IH].
  - cbn [find_after]. destruct (strip_prefix needle "") as [r|] eqn:Hp.
    + split; [discriminate|]. intros H. exfalso. apply (H 0%nat).
      apply occurs_at_zero. eauto.
    + split; [|reflexivity]. intros _ i (pre & post & Heq & Hlen).
      destruct pre; [|discriminate]. cbn in Heq.
      apply strip_prefix_spec in Heq. congruence.
  - cbn [find_after].
    destruct (strip_prefix needle (String c text)) as [r|] eqn:Hp.
    + split; [discriminate|]. intros H. exfalso. apply (H 0%nat).
      apply occurs_at_zero. eauto.
    + rewrite IH. split.
      * intros H [|i] Hocc.
        -- apply occurs_at_zero in Hocc as [r Hr]. congruence.
        -- apply occurs_at_shift in Hocc. now apply (H i).
      * intros H i Hocc. apply (H (S i)). now apply occurs_at_shift.
Qed.

Lemma contains_spec (needle text : string) :
  contains needle text = true <-> exists i, occurs_at needle text i.
Proof.
  unfold contains. destruct (find_after needle text) as [r|] eqn:Hf.
  - split; [|reflexivity]. intros _.
    apply find_after_some in Hf as (pre & Heq & _).
    exists (length pre), pre, r. now split.
  - split; [discriminate|]. intros [i Hi].
    now apply (proj1 (find_after_none needle text) Hf i) in Hi.
Qed.

Lemma length_append (a b : string) :
  length (a ++ b)%string = (length a + length b)%nat.
Proof. induction a as [|x a IH]; cbn; [reflexivity | now rewrite IH]. Qed.

Lemma drop_while_idem (f : ascii -> bool) (s : string) :
  drop_while f (drop_while f s) = drop_while f s.
Proof.
  induction s as [|c s IH]; [reflexivity|]. cbn [drop_while].
  destruct (f c) eqn:Hc; [exact IH|]. cbn [drop_while]. now rewrite Hc.
Qed.

Lemma rstrip_blank (s : string) : rstrip s = "" <-> blank s = true.
Proof.
  unfold blank. induction s as [|c s IH]; cbn [rstrip all]; [tauto|].
  destruct (rstrip s) as [|c' r] eqn:Hr.
  - destruct (isspace c); cbn [andb].
    + rewrite <- IH. tauto.
    + split; discriminate.
  - split; [discriminate|]. intros H. apply andb_prop in H as [_ H].
    apply IH in H. discriminate.
Qed.

Lemma rstrip_idem (s : string) : rstrip (rstrip s) = rstrip s.
Proof.
  induction s as [|c s IH]; [reflexivity|]. cbn [rstrip].
  destruct (rstrip s) as [|c' r] eqn:Hr.
  - destruct (isspace c) eqn:Hc; [reflexivity|]. cbn [rstrip]. now rewrite Hc.
  - cbn [rstrip]. cbn [rstrip] in IH. rewrite IH. reflexivity.
Qed.

Lemma rstrip_head (s : string) :
  drop_while isspace s = s -> drop_while isspace (rstrip s) = rstrip s.
Proof.
  destruct s as [|c s]; [reflexivity|]. cbn [drop_while rstrip].
  destruct (isspace c) eqn:Hc.
  - intros H. exfalso.
    assert (Hlen : (length (drop_while isspace s) <= length s)%nat).
    { clear. induction s as [|x s IH]; cbn; [lia|].
      destruct (isspace x); cbn; lia. }
    rewrite H in Hlen. cbn in Hlen. lia.
  - intros _. destruct (rstrip s); cbn [drop_while]; now rewrite Hc.
Qed.

Lemma strip_trimmed (s : string) : trimmed (strip s).
Proof.
  unfold trimmed, strip, lstrip. split.
  - apply rstrip_head, drop_while_idem.
  - apply rstrip_idem.
Qed.

Lemma blank_drop_while (s : string) :
  blank (drop_while isspace s) = blank s.
Proof.
  unfold blank. induction s as [|c s IH]; [reflexivity|].
  cbn [drop_while all]. destruct (isspace c) eqn:Hc; [exact IH|].
  cbn [all]. now rewrite Hc.
Qed.

(** [s.strip()] is empty exactly for a blank [s]. *)
Lemma strip_blank (s : string) : truthy (strip s) = false <-> blank s = true.
Proof.
  unfold strip, lstrip. rewrite <- blank_drop_while, <- rstrip_blank.
  destruct (rstrip (drop_while isspace s)); cbn; split; congruence.
Qed.

End Searching.

(** ** The scoring wrapper and the skip test *)

(** X1.  Whatever the scoring service does (reply, no reply, exception),
    every rating of the ranking and the top candidate carry a score between
    0 and 100. *)
Theorem every_score_is_a_percentage
    (w : world) (job : string) (cv_data : dict) (t : trace) :
  exists top ranked t',
    _run_matching_and_rating w job cv_data t = (Ok (top, ranked), t') /\
    Forall (fun r => (0 <= score r <= 100)%Z) ranked /\
    (forall m, top = Some m -> (0 <= score m <= 100)%Z).
Proof.
  do 3 eexists. split; [apply run_matching_and_rating_run|].
  assert (Hall : forall d t0,
             Forall (fun r => (0 <= score r <= 100)%Z) (ratings_from w job t0 d)).
  { induction d as [|[fn cv] d IH]; intros t0; cbn [ratings_from];
      [constructor|].
    destruct (skipped cv); constructor; try apply IH.
    - cbn. lia.
    - apply rating_of_range. }
  assert (Hranked : Forall (fun r => (0 <= score r <= 100)%Z)
                      (sort_by_score_desc (ratings_from w job t cv_data))).
  { eapply Permutation_Forall; [|apply Hall].
    apply Permutation_sym, sort_by_score_desc_perm. }
  split; [exact Hranked|].
  intros m Hm.
  destruct (best_from_max w job cv_data t [] ((-1)%Z, None)) with (m := m)
    as [Hin _]; try assumption; try reflexivity.
  - intros m' Hm'. discriminate Hm'.
  - left. constructor.
  - cbn [app] in Hin. pose proof (Hall cv_data t) as Hscores.
    rewrite Forall_forall in Hscores. now apply Hscores.
Qed.

(** X2.  The justification of a reply is what follows the leftmost
    JUSTIFICATION: up to the end of the reply, line breaks included,
    stripped of white space at both ends; a reply without the literal gets
    the placeholder.  Either way the justification has white space at
    neither end. *)
Theorem justification_is_stripped_rest_of_reply
    (w : world) (t : trace) (job cv text : string) :
  rate_model w t job cv = Text text ->
  exists sc just,
    rate_cv_suitability w job cv t = (Ok (sc, just), t ++ [RateCall job cv]) /\
    (forall rest,
       first_followed_by "JUSTIFICATION:" text rest ->
       just = PyStr.strip rest) /\
    ((forall i, ~ occurs_at "JUSTIFICATION:" text i) ->
     just = "N/A - No justification provided.") /\
    trimmed just.
Proof.
  intros Hreply.
  exists (fst (parse_reply w text)), (snd (parse_reply w text)).
  split.
  { rewrite rate_cv_suitability_run. unfold rate_outcome. rewrite Hreply.
    now destruct (parse_reply w text). }
  unfold parse_reply, search_justification. cbn [snd].
  assert (Hstrip : forall r,
             PyStr.strip (PyStr.drop_while PyStr.isspace r) = PyStr.strip r).
  { intros r. unfold PyStr.strip, PyStr.lstrip. now rewrite drop_while_idem. }
  split; [|split].
  - intros rest Hfirst. apply find_after_some in Hfirst.
    rewrite Hfirst. apply Hstrip.
  - intros Hnone. apply find_after_none in Hnone. now rewrite Hnone.
  - destruct (PyStr.find_after "JUSTIFICATION:" text) as [r|].
    + apply strip_trimmed.
    + split; reflexivity.
Qed.

(** The theorem at the reply to profile A of the examples. *)
Lemma justification_is_stripped_rest_of_reply_witness :
  exists sc,
    rate_cv_suitability mocked_world "job" "profile A" []
    = (Ok (sc, "partial match"), [RateCall "job" "profile A"]).
Proof.
  destruct (justification_is_stripped_rest_of_reply mocked_world []
              "job" "profile A" _ eq_refl)
    as (sc & just & Hrun & Hrest & _).
  exists sc. rewrite Hrun. do 2 f_equal. f_equal.
  apply (Hrest " partial match").
  exists ("PERCENTAGE: 80%" ++ newline)%string. split; [reflexivity|].
  intros j Hj Hocc.
  assert (Hfind : PyStr.find_after "JUSTIFICATION:"
                    ("PERCENTAGE: 80%" ++ newline
                     ++ "JUSTIFICATION: partial match")
                  = Some " partial match") by reflexivity.
  apply find_after_some in Hfind as (pre & Heq & Hmin).
  assert (Hlen : length pre = 16%nat).
  { apply (f_equal length) in Heq. rewrite !length_append in Heq.
    cbn in Heq. lia. }
  apply (Hmin j); [rewrite Hlen; cbn in Hj; lia | exact Hocc].
Defined.

(** X3.  The engine skips a candidate exactly when its stored profile is
    empty or contains the phrase No text extracted anywhere in it: a
    profile that merely quotes the phrase is skipped as well. *)
Theorem skip_test_is_empty_or_contains_phrase (cv : cv_info) :
  skipped cv = true <->
  parsed_info cv = "" \/
  exists pre post,
    parsed_info cv = (pre ++ "No text extracted" ++ post)%string.
Proof.
  unfold skipped. rewrite orb_true_iff, contains_spec. split.
  - intros [H|[i (pre & post & Heq & _)]].
    + left. now destruct (parsed_info cv).
    + right. now exists pre, post.
  - intros [H|(pre & post & Heq)].
    + left. now rewrite H.
    + right. exists (length pre), pre, post. now split.
Qed.

(** ** Ingestion of one CV *)

Section OneDocument.
Import PyStr StrFacts.

Lemma substring_prefix (n : nat) (s : string) :
  exists rest,
    s = (substring 0 n s ++ rest)%string /\
    length (substring 0 n s) = Nat.min n (length s).
Proof.
  revert s. induction n as [|n IH]; intros s.
  - exists s. destruct s; now split.
  - destruct s as [|c s].
    + exists "". now split.
    + destruct (IH s) as (rest & Heq & Hlen). exists rest. cbn. split.
      * now rewrite <- Heq.
      * now rewrite Hlen.
Qed.

Lemma all_append (f : ascii -> bool) (a b : string) :
  all f (a ++ b) = all f a && all f b.
Proof.
  induction a as [|c a IH]; [reflexivity|]. cbn. rewrite IH.
  now rewrite andb_assoc.
Qed.

Lemma blank_join (sep : string) (l : list string) :
  blank sep = true -> blank (join sep l) = forallb blank l.
Proof.
  intros Hsep. unfold blank, join in *.
  induction l as [|x l IH]; [reflexivity|].
  destruct l as [|y l].
  - cbn. now rewrite andb_true_r.
  - cbn [concat forallb] in *. rewrite !all_append, Hsep, IH. reflexivity.
Qed.

Variable w : world.

Lemma cv_step_by_text (d : dict) (file_path : string) (t : trace)
    (full_text : string) (t1 : trace) :
  _process_document_to_text_list w (OnePath file_path) false t
  = (Ok full_text, t1) ->
  cv_step w d file_path t
  = if blank full_text
    then (Ok (dict_set (basename file_path) no_text_entry d), t1)
    else (Ok (dict_set (basename file_path)
                {| text_raw := full_text;
                   parsed_info := parse_outcome w t1 full_text |} d),
          t1 ++ [ParseCvCall (substring 0 6000 full_text)]).
Proof.
  intros Hrun. rewrite process_document_run in Hrun.
  inversion Hrun as [[Htext Htrace]].
  rewrite cv_step_run. unfold entry_of, trace_of.
  destruct (blank (doc_text w t file_path)) eqn:Hb.
  - apply strip_blank in Hb. now rewrite Hb.
  - destruct (truthy (strip (doc_text w t file_path))) eqn:Hs; [reflexivity|].
    apply strip_blank in Hs. congruence.
Qed.

End OneDocument.

(** X4.  For a document with text, the profile service is shown the first
    6000 characters of the raw text and no more, while the candidate
    mapping keeps the whole raw text. *)
Theorem profile_service_sees_first_6000_characters
    (w : world) (d : dict) (file_path : string) (t : trace)
    (full_text : string) (t1 : trace) :
  _process_document_to_text_list w (OnePath file_path) false t
  = (Ok full_text, t1) ->
  blank full_text = false ->
  exists prompt_text rest parsed,
    full_text = (prompt_text ++ rest)%string /\
    length prompt_text = Nat.min 6000 (length full_text) /\
    parse_cv_skills_and_experience w full_text t1
    = (Ok parsed, t1 ++ [ParseCvCall prompt_text]) /\
    cv_step w d file_path t
    = (Ok (dict_set (basename file_path)
             {| text_raw := full_text; parsed_info := parsed |} d),
       t1 ++ [ParseCvCall prompt_text]).
Proof.
  intros Hrun Hblank.
  destruct (substring_prefix 6000 full_text) as (rest & Heq & Hlen).
  exists (substring 0 6000 full_text), rest, (parse_outcome w t1 full_text).
  split; [exact Heq|]. split; [exact Hlen|].
  split; [apply parse_cv_run|].
  rewrite (cv_step_by_text w d file_path t full_text t1 Hrun), Hblank.
  reflexivity.
Qed.

(** The theorem at one of the images of the examples. *)
Lemma profile_service_sees_first_6000_characters_witness :
  exists parsed t2,
    cv_step office_world [] "archive/jane.png" []
    = (Ok [("jane.png", {| text_raw := "J. Doe, Java"; parsed_info := parsed |})],
       t2).
Proof.
  destruct (profile_service_sees_first_6000_characters office_world []
              "archive/jane.png" [] "J. Doe, Java"
              [FileRead "archive/jane.png"; VisionCall page2]
              eq_refl eq_refl)
    as (prompt_text & rest & parsed & _ & _ & _ & Hstep).
  exists parsed. eexists. exact Hstep.
Defined.

(** X5.  When the profile service raises for a document with text, the
    stored profile is the error description; the engine skips such a
    candidate only if the error message itself contains the phrase No text
    extracted, and otherwise sends the error description to the scoring
    service as the candidate profile.  When the service answers nothing, the
    stored profile is a fixed sentence, which is never skipped. *)
Theorem failed_profile_call_leaves_a_rated_candidate
    (w : world) (d : dict) (file_path : string) (t : trace)
    (full_text : string) (t1 : trace) :
  _process_document_to_text_list w (OnePath file_path) false t
  = (Ok full_text, t1) ->
  blank full_text = false ->
  exists entry t2,
    cv_step w d file_path t
    = (Ok (dict_set (basename file_path) entry d), t2) /\
    text_raw entry = full_text /\
    (forall e,
       parse_cv_model w t1 (substring 0 6000 full_text) = Raises e ->
       parsed_info entry = ("Error parsing CV: " ++ e)%string /\
       skipped entry = PyStr.contains "No text extracted" e /\
       (skipped entry = false ->
        forall job st t0,
          exists st',
            rate_step w job st (basename file_path, entry) t0
            = (Ok st', t0 ++ [RateCall job ("Error parsing CV: " ++ e)]))) /\
    (parse_cv_model w t1 (substring 0 6000 full_text) = Falsy ->
     parsed_info entry = "Could not parse CV." /\ skipped entry = false).
Proof.
  intros Hrun Hblank.
  exists {| text_raw := full_text;
            parsed_info := parse_outcome w t1 full_text |},
         (t1 ++ [ParseCvCall (substring 0 6000 full_text)]).
  split.
  { rewrite (cv_step_by_text w d file_path t full_text t1 Hrun), Hblank.
    reflexivity. }
  cbn [text_raw parsed_info]. split; [reflexivity|].
  unfold skipped, parse_outcome. cbn [parsed_info]. split.
  - intros e He. rewrite He. split; [reflexivity|].
    split; [reflexivity|].
    intros Hs job st t0. eexists.
    rewrite rate_step_rated; [reflexivity | exact Hs].
  - intros He. rewrite He. split; reflexivity.
Qed.

(** The theorem at the image for which the profile service of the
    examples is out of quota. *)
Lemma failed_profile_call_leaves_a_rated_candidate_witness :
  exists entry t2,
    cv_step office_world [] "inbox/jane.png" []
    = (Ok [("jane.png", entry)], t2) /\
    skipped entry = false.
Proof.
  destruct (failed_profile_call_leaves_a_rated_candidate office_world []
              "inbox/jane.png" [] "Jane Doe, Python"
              [FileRead "inbox/jane.png"; VisionCall page1]
              eq_refl eq_refl)
    as (entry & t2 & Hstep & _ & Hraise & _).
  exists entry, t2. split; [exact Hstep|].
  destruct (Hraise "429 quota exceeded" eq_refl) as (_ & Hskip & _).
  rewrite Hskip. reflexivity.
Defined.

(** X6.  However the raw text of a document is cut into segments at the
    page separator, the document counts as having no text exactly when
    every segment is blank: then the no-text entry is stored and the
    profile service is not called; as soon as one segment has a character
    that is not white space, the profile service is called once. *)
Theorem document_fails_iff_every_page_is_blank
    (w : world) (d : dict) (file_path : string) (t : trace)
    (full_text : string) (t1 : trace) (texts : list string) :
  _process_document_to_text_list w (OnePath file_path) false t
  = (Ok full_text, t1) ->
  full_text = PyStr.join page_separator texts ->
  (forallb blank texts = true ->
   cv_step w d file_path t
   = (Ok (dict_set (basename file_path) no_text_entry d), t1)) /\
  (forallb blank texts = false ->
   exists parsed,
     cv_step w d file_path t
     = (Ok (dict_set (basename file_path)
              {| text_raw := full_text; parsed_info := parsed |} d),
        t1 ++ [ParseCvCall (substring 0 6000 full_text)])).
Proof.
  intros Hrun Hjoin.
  rewrite (cv_step_by_text w d file_path t full_text t1 Hrun).
  assert (Hblank : blank full_text = forallb blank texts)
    by (rewrite Hjoin; now apply blank_join).
  rewrite Hblank.
  split; intros Hb; rewrite Hb; [reflexivity | eexists; reflexivity].
Qed.

(** The theorem at the PDF of two pages of the examples. *)
Lemma document_fails_iff_every_page_is_blank_witness :
  exists parsed t2,
    cv_step office_world [] "cvs/bob.pdf" []
    = (Ok [("bob.pdf",
            {| text_raw := ("Jane Doe, Python" ++ newline ++ newline
                            ++ "J. Doe, Java")%string;
               parsed_info := parsed |})], t2).
Proof.
  destruct (document_fails_iff_every_page_is_blank office_world []
              "cvs/bob.pdf" [] _ _ ["Jane Doe, Python"; "J. Doe, Java"]
              eq_refl eq_refl)
    as [_ Hsome].
  destruct (Hsome eq_refl) as [parsed Hstep].
  exists parsed. eexists. exact Hstep.
Defined.

(** ** Lists of files *)

Section FileLists.
Import PyStr StrFacts.

Lemma string_app_assoc (a b c : string) :
  ((a ++ b) ++ c)%string = (a ++ (b ++ c))%string.
Proof. induction a as [|x a IH]; cbn; [reflexivity | now rewrite IH]. Qed.

Lemma join_app (sep : string) (l1 l2 : list string) :
  join sep (l1 ++ l2)
  = match l1, l2 with
    | [], _ => join sep l2
    | _, [] => join sep l1
    | _, _ => (join sep l1 ++ sep ++ join sep l2)%string
    end.
Proof.
  unfold join. induction l1 as [|x l1 IH]; [reflexivity|].
  destruct l2 as [|y l2]; [now rewrite app_nil_r|].
  destruct l1 as [|x' l1].
  - reflexivity.
  - change ((x :: x' :: l1) ++ y :: l2) with (x :: (x' :: l1) ++ y :: l2).
    change (concat sep (x :: (x' :: l1) ++ y :: l2))
      with (x ++ sep ++ concat sep ((x' :: l1) ++ y :: l2))%string.
    rewrite IH.
    change (concat sep (x :: x' :: l1))
      with (x ++ sep ++ concat sep (x' :: l1))%string.
    now rewrite !string_app_assoc.
Qed.

Variable w : world.

(** X7.  In single-file mode a list of paths is cut to its first file: the
    result and the calls are those of that file alone, the other files
    are not opened; an empty list gives the empty text and no call. *)
Theorem single_file_mode_reads_only_the_first_file
    (file_path : string) (rest : list string) (is_single_file : bool)
    (t : trace) :
  _process_document_to_text_list w (PathList (file_path :: rest)) true t
  = _process_document_to_text_list w (OnePath file_path) is_single_file t /\
  (exists text,
     _process_document_to_text_list w (PathList (file_path :: rest)) true t
     = (Ok text,
        (t ++ [load_event file_path])
          ++ map VisionCall (pages_of w t file_path))) /\
  _process_document_to_text_list w (PathList []) is_single_file t = (Ok "", t).
Proof.
  split; [|split].
  - rewrite process_document_run.
    unfold _process_document_to_text_list. cbn [process_files]. unfold bind.
    rewrite load_images_run. unfold doc_text, doc_trace, pages_of.
    destruct (images_of w t file_path) as [imgs|].
    + now rewrite extract_pages_run.
    + cbn. now rewrite app_nil_r.
  - exists (doc_text w t file_path).
    unfold _process_document_to_text_list. cbn [process_files]. unfold bind.
    rewrite load_images_run. unfold doc_text, pages_of.
    destruct (images_of w t file_path) as [imgs|].
    + now rewrite extract_pages_run.
    + cbn. now rewrite app_nil_r.
  - reflexivity.
Qed.

(** X8.  In list mode the text of two readable files is the text of the
    first, the page separator, and the text of the second, each as if
    processed alone one after the other; a file without pages adds neither
    text nor separator. *)
Theorem list_mode_joins_the_files
    (p1 p2 : string) (t : trace) (imgs1 imgs2 : list bytes)
    (ta tb : trace) (text1 text2 : string) (t1 t2 : trace) :
  load_images w p1 t = (Ok (Some imgs1), ta) ->
  _process_document_to_text_list w (OnePath p1) false t = (Ok text1, t1) ->
  load_images w p2 t1 = (Ok (Some imgs2), tb) ->
  _process_document_to_text_list w (OnePath p2) false t1 = (Ok text2, t2) ->
  _process_document_to_text_list w (PathList [p1; p2]) false t
  = (Ok match imgs1, imgs2 with
        | [], _ => text2
        | _, [] => text1
        | _, _ => (text1 ++ page_separator ++ text2)%string
        end, t2).
Proof.
  intros Hl1 Hr1 Hl2 Hr2.
  rewrite load_images_run in Hl1, Hl2.
  inversion Hl1 as [[Hi1 Hta]]. inversion Hl2 as [[Hi2 Htb]].
  rewrite process_document_run in Hr1, Hr2.
  unfold doc_text, doc_trace, pages_of in Hr1, Hr2.
  rewrite Hi1 in Hr1. rewrite Hi2 in Hr2.
  inversion Hr1 as [[Htext1 Ht1]]. inversion Hr2 as [[Htext2 Ht2]].
  unfold _process_document_to_text_list. cbn [process_files]. unfold bind.
  rewrite load_images_run, Hi1, extract_pages_run. cbn [app].
  rewrite Ht1, load_images_run, Hi2, extract_pages_run.
  rewrite join_app. f_equal. f_equal.
  destruct imgs1 as [|i1 imgs1]; [reflexivity|].
  destruct imgs2 as [|i2 imgs2]; reflexivity.
Qed.

(** X9.  In list mode one file that is not a PDF and cannot be read
    empties the result: the text of the files before it is dropped and the
    method returns the empty text. *)
Theorem unreadable_file_empties_the_list_result
    (files : list string) (file_path : string) (t : trace) :
  In file_path files ->
  is_pdf file_path = false ->
  (forall t0, exists e, file_read w t0 file_path = Raise e) ->
  exists t',
    _process_document_to_text_list w (PathList files) false t = (Ok "", t').
Proof.
  intros Hin Hpdf Hread. unfold _process_document_to_text_list.
  generalize (@nil string) as acc. revert t.
  induction files as [|p ps IH]; intros t acc; [contradiction|].
  cbn [process_files]. unfold bind. rewrite load_images_run.
  destruct (images_of w t p) as [imgs|] eqn:Himgs.
  - rewrite extract_pages_run. destruct Hin as [->|Hin].
    + unfold images_of in Himgs. rewrite Hpdf in Himgs.
      destruct (Hread t) as [e He]. rewrite He in Himgs. discriminate.
    + now apply IH.
  - eexists. reflexivity.
Qed.

End FileLists.

(** The theorem at the two images of the examples. *)
Lemma list_mode_joins_the_files_witness :
  _process_document_to_text_list office_world
      (PathList ["inbox/jane.png"; "archive/jane.png"]) false []
  = (Ok ("Jane Doe, Python" ++ newline ++ newline ++ "J. Doe, Java")%string,
     [FileRead "inbox/jane.png"; VisionCall page1;
      FileRead "archive/jane.png"; VisionCall page2]).
Proof.
  exact (list_mode_joins_the_files office_world
           "inbox/jane.png" "archive/jane.png" [] [page1] [page2]
           _ _ _ _ _ _ eq_refl eq_refl eq_refl eq_refl).
Defined.

(** The theorem at a list with a file that the world of the examples
    cannot read. *)
Lemma unreadable_file_empties_the_list_result_witness :
  exists t',
    _process_document_to_text_list office_world
        (PathList ["inbox/jane.png"; "lost/sam.png"; "archive/jane.png"])
        false []
    = (Ok "", t').
Proof.
  apply (unreadable_file_empties_the_list_result office_world _ "lost/sam.png").
  - right. now left.
  - reflexivity.
  - intros t0. now exists "cannot read".
Defined.

(** ** Keys of the candidate mapping and kinds of files *)

Section Keys.
Import PyStr StrFacts.

Lemma dict_set_keys (k : string) (v : cv_info) (d : dict) :
  map fst (dict_set k v d)
  = if has_key k d then map fst d else map fst d ++ [k].
Proof.
  unfold has_key. induction d as [|[k' v'] d IH]; [reflexivity|].
  cbn [dict_set map fst existsb].
  rewrite (String.eqb_sym k k').
  destruct (String.eqb k' k); cbn [orb map fst]; [reflexivity|].
  rewrite IH. now destruct (existsb (String.eqb k) (map fst d)).
Qed.

Lemma has_key_set (x k : string) (v : cv_info) (d : dict) :
  has_key x (dict_set k v d) = has_key x d || String.eqb k x.
Proof.
  unfold has_key. induction d as [|[k' v'] d IH].
  - cbn. now rewrite orb_false_r, String.eqb_sym.
  - cbn [dict_set]. destruct (String.eqb_spec k' k) as [->|Hne].
    + cbn [map fst existsb]. rewrite (String.eqb_sym k x).
      destruct (String.eqb x k), (existsb (String.eqb x) (map fst d));
        reflexivity.
    + cbn [map fst existsb]. rewrite IH. now rewrite orb_assoc.
Qed.

Lemma filter_andb (f g : string -> bool) (l : list string) :
  filter (fun x => f x && g x) l = filter f (filter g l).
Proof.
  induction l as [|x l IH]; [reflexivity|]. cbn.
  destruct (g x); cbn.
  - rewrite andb_true_r. destruct (f x); now rewrite IH.
  - now rewrite andb_false_r.
Qed.

Lemma filter_true_id (l : list string) (f : string -> bool) :
  (forall x, f x = true) -> filter f l = l.
Proof.
  intros Hf. induction l as [|x l IH]; [reflexivity|].
  cbn. now rewrite Hf, IH.
Qed.

Lemma first_occurrences_nodup (l : list string) : NoDup (first_occurrences l).
Proof.
  induction l as [|x l IH]; cbn; constructor.
  - intros Hin. apply filter_In in Hin as [_ Hx].
    now rewrite String.eqb_refl in Hx.
  - now apply NoDup_filter.
Qed.

Lemma first_occurrences_in (l : list string) (x : string) :
  In x (first_occurrences l) <-> In x l.
Proof.
  induction l as [|y l IH]; cbn; [tauto|].
  rewrite filter_In, IH. split.
  - intros [H|[H _]]; auto.
  - intros [H|H]; auto.
    destruct (String.eqb_spec y x) as [Heq|Hne]; [now left|].
    right. split; [assumption | reflexivity].
Qed.

Variable w : world.

Lemma cv_loop_keys (file_paths : list string) (d d' : dict) (t t' : trace) :
  cv_loop w file_paths d t = (Ok d', t') ->
  map fst d'
  = map fst d
    ++ filter (fun k => negb (has_key k d))
              (first_occurrences (map basename file_paths)).
Proof.
  revert d t. induction file_paths as [|p ps IH]; intros d t Hrun.
  - cbn in Hrun. inversion Hrun; subst. cbn. now rewrite app_nil_r.
  - cbn [cv_loop] in Hrun. unfold bind in Hrun. rewrite cv_step_run in Hrun.
    apply IH in Hrun. rewrite Hrun. clear Hrun IH.
    cbn [map first_occurrences].
    set (k := basename p).
    set (F := first_occurrences (map basename ps)).
    rewrite (filter_ext _ (fun x => negb (has_key x d)
                                    && negb (String.eqb k x))).
    2:{ intros x. rewrite has_key_set. apply negb_orb. }
    rewrite filter_andb, dict_set_keys. cbn [filter].
    destruct (has_key k d); cbn [negb]; [reflexivity|].
    now rewrite <- app_assoc.
Qed.

End Keys.

(** X10.  The keys of the candidate mapping are the distinct file names
    of the batch, each at the place of its first file: a name that comes
    twice keeps the position of the first file (and, by the overwriting,
    the content of the last). *)
Theorem candidate_keys_are_first_occurrences
    (w : world) (file_paths : list string) (t : trace) :
  exists new_cv_data t',
    _run_cv_processing w file_paths t
    = (Ok (new_cv_data, List.length file_paths), t') /\
    map fst new_cv_data = first_occurrences (map basename file_paths) /\
    NoDup (map fst new_cv_data) /\
    (forall k, In k (map fst new_cv_data) <-> In k (map basename file_paths)).
Proof.
  destruct (cv_loop_returns w file_paths [] t) as (d & t' & Hrun).
  exists d, t'.
  assert (Hkeys : map fst d = first_occurrences (map basename file_paths)).
  { rewrite (cv_loop_keys w _ _ _ _ _ Hrun). cbn [map app].
    apply (filter_true_id _ (fun k => negb (has_key k []))).
    reflexivity. }
  split; [unfold _run_cv_processing, bind; now rewrite Hrun|].
  split; [exact Hkeys|]. rewrite Hkeys.
  split; [apply first_occurrences_nodup|].
  intros k. apply first_occurrences_in.
Qed.

Section PathNames.
Import PyStr StrFacts.

Lemma last_slash_split (s : string) :
  slash_free s = false ->
  exists a b, s = (a ++ String "/" b)%string /\ slash_free b = true.
Proof.
  unfold slash_free. induction s as [|c s IH]; [discriminate|].
  cbn [all]. intros H. destruct (all (fun c0 => negb (Ascii.eqb c0 "/")) s) eqn:Hs.
  - rewrite andb_true_r in H. apply negb_false_iff, Ascii.eqb_eq in H. subst c.
    now exists "", s.
  - destruct (IH eq_refl) as (a & b & -> & Hb). now exists (String c a), b.
Qed.

Lemma lower_append (a b : string) :
  lower (a ++ b) = (lower a ++ lower b)%string.
Proof. induction a as [|c a IH]; cbn; [reflexivity | now rewrite IH]. Qed.

Lemma length_lower (s : string) : length (lower s) = length s.
Proof. induction s as [|c s IH]; cbn; [reflexivity | now rewrite IH]. Qed.

Lemma substring_skip (a b : string) (k m : nat) :
  substring (length a + k) m (a ++ b) = substring k m b.
Proof. induction a as [|c a IH]; [reflexivity|]. cbn. exact IH. Qed.

Lemma substring_whole (s : string) : substring 0 (length s) s = s.
Proof. induction s as [|c s IH]; cbn; [reflexivity | now rewrite IH]. Qed.

Lemma endswith_same_length (suffix a b : string) :
  length b = length suffix ->
  endswith suffix (a ++ b) = String.eqb b suffix.
Proof.
  intros Hlen. unfold endswith. rewrite length_append, <- Hlen.
  replace (length a + length b - length b)%nat with (length a + 0)%nat by lia.
  rewrite substring_skip, substring_whole.
  assert (Hle : (length b <=? length a + length b)%nat = true)
    by (apply Nat.leb_le; lia).
  now rewrite Hle.
Qed.

End PathNames.

(** X11.  Every path is a directory part followed by its key: the key has
    no slash, and the directory part is empty or ends with a slash.  (A
    path that ends with a slash has the empty key.) *)
Theorem basename_is_the_part_after_the_last_slash (file_path : string) :
  exists dir,
    file_path = (dir ++ basename file_path)%string /\
    slash_free (basename file_path) = true /\
    (dir = "" \/ exists dir', dir = (dir' ++ "/")%string).
Proof.
  destruct (slash_free file_path) eqn:Hfree.
  - exists "". rewrite (basename_without_slash file_path Hfree).
    split; [reflexivity|]. split; [exact Hfree | now left].
  - destruct (last_slash_split file_path Hfree) as (a & b & -> & Hb).
    exists (a ++ "/")%string.
    rewrite (basename_after_last_slash a b Hb).
    split; [|split; [exact Hb | right; now exists a]].
    clear. induction a as [|c a IH]; cbn; [reflexivity | now rewrite <- IH].
Qed.

(** X12.  Whether a file is treated as a PDF depends on its last four
    characters only, compared without regard to case; a path shorter than
    four characters is never a PDF.  So names ending in .pdf, .PDF or .Pdf
    go to the PDF conversion, and names ending in .png, .jpg or .jpeg are
    read as images. *)
Theorem pdf_kind_is_decided_by_the_last_four_characters :
  (forall stem ext,
     length ext = 4%nat ->
     is_pdf (stem ++ ext) = String.eqb (PyStr.lower ext) ".pdf") /\
  (forall file_path, (length file_path < 4)%nat -> is_pdf file_path = false) /\
  (forall stem,
     is_pdf (stem ++ ".pdf") = true /\
     is_pdf (stem ++ ".PDF") = true /\
     is_pdf (stem ++ ".Pdf") = true /\
     is_pdf (stem ++ ".png") = false /\
     is_pdf (stem ++ ".jpg") = false /\
     is_pdf (stem ++ ".jpeg") = false).
Proof.
  assert (Hext : forall stem ext,
             length ext = 4%nat ->
             is_pdf (stem ++ ext) = String.eqb (PyStr.lower ext) ".pdf").
  { intros stem ext Hlen. unfold is_pdf.
    rewrite lower_append. apply endswith_same_length.
    now rewrite length_lower. }
  split; [exact Hext|]. split.
  - intros file_path Hlen. unfold is_pdf, PyStr.endswith.
    rewrite length_lower.
    assert (Hle : (length ".pdf" <=? length file_path)%nat = false)
      by (apply Nat.leb_gt; exact Hlen).
    now rewrite Hle.
  - intros stem. repeat split; try (now rewrite Hext).
    replace (stem ++ ".jpeg")%string with ((stem ++ ".") ++ "jpeg")%string.
    + now rewrite Hext.
    + clear. induction stem as [|c stem IH]; cbn; [reflexivity | now rewrite IH].
Qed.

(** The ranking holds one rating for each key of the mapping, and the
    top candidate is one of them. *)
Lemma ranking_covers_the_mapping
    (w : world) (job : string) (cv_data : dict) (t : trace) :
  exists top ranked t',
    _run_matching_and_rating w job cv_data t = (Ok (top, ranked), t') /\
    Permutation (map filename ranked) (map fst cv_data) /\
    (forall m, top = Some m -> In m ranked).
Proof.
  do 3 eexists. split; [apply run_matching_and_rating_run|]. split.
  - rewrite <- (ratings_from_filenames w job cv_data t).
    apply Permutation_map, sort_by_score_desc_perm.
  - intros m Hm.
    destruct (best_from_max w job cv_data t [] ((-1)%Z, None)) with (m := m)
      as [Hin _]; try assumption; try reflexivity.
    + intros m' Hm'. discriminate Hm'.
    + left. constructor.
    + eapply Permutation_in; [|exact Hin].
      apply Permutation_sym, sort_by_score_desc_perm.
Qed.

(** ** The application *)

Section Application.

Lemma rating_eqb_eq (a b : rating) : rating_eqb a b = true <-> a = b.
Proof.
  unfold rating_eqb. destruct a as [fa sa ja], b as [fb sb jb]. cbn.
  rewrite !andb_true_iff, !String.eqb_eq, Z.eqb_eq. split.
  - intros [[-> ->] ->]. reflexivity.
  - intros H. inversion H. auto.
Qed.

Lemma filter_out_one (m : rating) (l : list rating) :
  NoDup l -> In m l ->
  S (List.length (filter (fun c => negb (rating_eqb c m)) l)) = List.length l.
Proof.
  induction l as [|x l IH]; intros Hnd Hin; [contradiction|].
  inversion Hnd as [|? ? Hx Hl]; subst. cbn [filter].
  destruct (rating_eqb x m) eqn:Heq; cbn [negb List.length].
  - apply rating_eqb_eq in Heq. subst x. f_equal.
    clear IH Hnd Hin Hl. induction l as [|y l IH]; [reflexivity|].
    cbn [filter]. destruct (rating_eqb y m) eqn:Hy.
    + apply rating_eqb_eq in Hy. subst y. exfalso. apply Hx. now left.
    + cbn. f_equal. apply IH. intros H. apply Hx. now right.
  - f_equal. apply IH; [assumption|].
    destruct Hin as [->|Hin]; [|assumption].
    assert (H : rating_eqb m m = true) by now apply rating_eqb_eq.
    congruence.
Qed.

Lemma nonempty_dict (d : dict) :
  d <> [] -> match d with [] => false | _ :: _ => true end = true.
Proof. destruct d; [congruence | reflexivity]. Qed.

Lemma truthy_nonempty (s : string) : s <> "" -> PyStr.truthy s = true.
Proof. destruct s; [congruence | reflexivity]. Qed.

End Application.




(** X15.  For a candidate mapping (whose keys are distinct), the list box
    shows the whole ranking when there is no top candidate, the single
    rating when there is only one, and otherwise the ranking without the
    top candidate and nothing else removed. *)
Theorem list_box_omits_exactly_the_top
    (w : world) (job : string) (cv_data : dict) (t : trace) :
  NoDup (map fst cv_data) ->
  exists top ranked t',
    _run_matching_and_rating w job cv_data t = (Ok (top, ranked), t') /\
    (top = None -> display_list top ranked = ranked) /\
    (forall m,
       top = Some m ->
       (List.length ranked = 1%nat -> display_list top ranked = [m]) /\
       (List.length ranked <> 1%nat ->
        ~ In m (display_list top ranked) /\
        S (List.length (display_list top ranked)) = List.length ranked /\
        forall r, In r ranked -> r <> m -> In r (display_list top ranked))).
Proof.
  intros Hkeys.
  destruct (ranking_covers_the_mapping w job cv_data t)
    as (top & ranked & t' & Hrun & Hperm & Hin).
  exists top, ranked, t'. split; [exact Hrun|].
  assert (Hnd : NoDup ranked).
  { apply (NoDup_map_inv filename).
    eapply Permutation_NoDup; [apply Permutation_sym, Hperm | exact Hkeys]. }
  split.
  - intros ->. unfold display_list. cbn [orb].
    clear. induction ranked as [|r l IH]; [reflexivity|]. cbn. now rewrite IH.
  - intros m ->. specialize (Hin m eq_refl). unfold display_list. split.
    + intros Hone. rewrite Hone. cbn [Nat.eqb].
      destruct ranked as [|r [|r' l]]; try discriminate.
      destruct Hin as [->|[]]. cbn. now rewrite orb_true_r.
    + intros Hmany. apply Nat.eqb_neq in Hmany. rewrite Hmany.
      assert (Hfilter :
                filter (fun c => negb (rating_eqb c m) || false) ranked
                = filter (fun c => negb (rating_eqb c m)) ranked).
      { apply filter_ext. intros c. apply orb_false_r. }
      rewrite Hfilter. split; [|split].
      * intros H. apply filter_In in H as [_ H].
        assert (Hm : rating_eqb m m = true) by now apply rating_eqb_eq.
        rewrite Hm in H. discriminate.
      * now apply filter_out_one.
      * intros r Hr Hne. apply filter_In. split; [assumption|].
        destruct (rating_eqb r m) eqn:Heq; [|reflexivity].
        apply rating_eqb_eq in Heq. contradiction.
Qed.

(** The theorem at the three candidates of the examples: the list box
    shows C and A, not B. *)
Lemma list_box_omits_exactly_the_top_witness :
  exists top ranked t',
    _run_matching_and_rating mocked_world "Requires: Python, 3 yrs"
        (self_cv_data loaded_app) []
    = (Ok (top, ranked), t') /\
    map filename (display_list top ranked) = ["C"; "A"].
Proof.
  destruct (list_box_omits_exactly_the_top mocked_world
              "Requires: Python, 3 yrs" (self_cv_data loaded_app) [])
    as (top & ranked & t' & Hrun & _).
  - repeat constructor; cbn; intuition discriminate.
  - exists top, ranked, t'. split; [exact Hrun|].
    cbv in Hrun. inversion Hrun. reflexivity.
Defined.

(** X16.  A CV upload replaces the candidate mapping wholesale.  The
    handler with a selection empties the mapping, resets the results area
    and leaves the buttons as they are.  Its thread hands the callback the
    mapping of this batch, which is never empty, even when every file
    failed, and the number of files.  The callback, in whatever state it
    runs, replaces the mapping of that state by the mapping of this batch
    alone, enables the match button exactly when that state has a job
    profile, and changes nothing else.  A cancelled dialog empties the
    mapping, starts no thread and disables the match button. *)
Theorem cv_upload_replaces_the_candidates
    (w : world) (st st_now : JobMatcherApp) (file_paths : list string)
    (t : trace) :
  (file_paths <> [] ->
   exists st1 new_cv_data t',
     _upload_cv_files st file_paths = (st1, Some file_paths) /\
     self_cv_data st1 = [] /\
     (most_suitable_cv_text st1, other_cvs_listbox st1)
     = (most_suitable_cv_text (_reset_results_area st), []) /\
     (upload_job_ad_button st1, upload_cvs_button st1, match_cvs_button st1)
     = (upload_job_ad_button st, upload_cvs_button st, match_cvs_button st) /\
     _run_cv_processing w file_paths t
     = (Ok (new_cv_data, List.length file_paths), t') /\
     new_cv_data <> [] /\
     let st2 := _update_cv_gui_after_processing st_now new_cv_data
                  (List.length file_paths) in
     self_cv_data st2 = new_cv_data /\
     match_cvs_button st2
     = (if PyStr.truthy (self_job_ad_parsed_info st_now)
        then NORMAL else DISABLED) /\
     (self_job_ad_text_raw st2, self_job_ad_parsed_info st2,
      self_cv_ratings st2, job_ad_text_preview st2,
      most_suitable_cv_text st2, other_cvs_listbox st2,
      upload_job_ad_button st2, upload_cvs_button st2)
     = (self_job_ad_text_raw st_now, self_job_ad_parsed_info st_now,
        self_cv_ratings st_now, job_ad_text_preview st_now,
        most_suitable_cv_text st_now, other_cvs_listbox st_now,
        upload_job_ad_button st_now, upload_cvs_button st_now)) /\
  (file_paths = [] ->
   exists st1,
     _upload_cv_files st file_paths = (st1, None) /\
     self_cv_data st1 = [] /\
     match_cvs_button st1 = DISABLED /\
     (most_suitable_cv_text st1, other_cvs_listbox st1)
     = (most_suitable_cv_text (_reset_results_area st), [])).
Proof.
  split.
  - intros Hne.
    destruct (cv_loop_returns w file_paths [] t) as (d & t' & Hloop).
    assert (Hd : d <> []).
    { destruct file_paths as [|p ps]; [congruence|].
      pose proof (cv_loop_has_keys w (p :: ps) p [] d t t' (or_introl eq_refl)
                    Hloop) as Hkey.
      intros ->. now apply Hkey. }
    assert (Hrun : _run_cv_processing w file_paths t
                   = (Ok (d, List.length file_paths), t')).
    { unfold _run_cv_processing, bind. now rewrite Hloop. }
    exists (_reset_results_area (set_cv_data st [])), d, t'.
    split; [destruct file_paths; [congruence | reflexivity]|].
    split; [reflexivity|]. split; [reflexivity|]. split; [reflexivity|].
    split; [exact Hrun|]. split; [exact Hd|].
    unfold _update_cv_gui_after_processing, _check_and_enable_match_button.
    cbn [self_job_ad_parsed_info self_cv_data set_cv_data].
    rewrite (nonempty_dict d Hd), andb_true_r.
    destruct (PyStr.truthy (self_job_ad_parsed_info st_now)); cbn;
      repeat split.
  - intros ->. eexists. split; [reflexivity|].
    unfold _check_and_enable_match_button. cbn. rewrite andb_false_r.
    cbn. repeat split.
Qed.

Lemma parse_job_advertisement_run
    (aw : app_world) (job_ad_text : string) (t : trace) :
  parse_job_advertisement aw job_ad_text t
  = (Ok match parse_job_model aw t (substring 0 6000 job_ad_text) with
        | Raises e => ("Error parsing job advertisement: " ++ e)%string
        | Falsy => "Could not parse job advertisement."
        | Text p => p
        end, t).
Proof.
  unfold parse_job_advertisement, try_except, bind, raise, ret.
  destruct (parse_job_model aw t (substring 0 6000 job_ad_text)); reflexivity.
Qed.

(** X17.  A job advertisement without text (no page, or only blank pages)
    yields no job profile.  The handler has emptied raw text, profile and
    preview; the thread issues the error callback with the file name and
    nothing else, whatever the profile service would answer.  The
    callback, in whatever state it runs, shows the message in the preview,
    resets the results area, leaves the data attributes and the upload
    buttons of that state, and enables the match button exactly when that
    state has a job profile and candidates; when that state has no job
    profile, as after the handler, the match button is disabled and a
    matching pass is refused. *)
Theorem blank_job_ad_leaves_no_profile
    (aw : app_world) (st st_now : JobMatcherApp) (file_path : string)
    (t : trace) (full_text : string) (t1 : trace) :
  file_path <> "" ->
  _process_document_to_text_list (services aw) (OnePath file_path) true t
  = (Ok full_text, t1) ->
  blank full_text = true ->
  exists st1 message,
    _upload_job_ad_file st file_path = (st1, Some file_path) /\
    (self_job_ad_text_raw st1, self_job_ad_parsed_info st1,
     job_ad_text_preview st1) = ("", "", "") /\
    message = ("Could not extract text from " ++ basename file_path
               ++ ". Check file content.")%string /\
    (forall model,
       _run_job_ad_processing
         {| services := services aw; parse_job_model := model |} file_path t
       = (Ok [GuiError message], t1)) /\
    _run_job_ad_processing aw file_path t = (Ok [GuiError message], t1) /\
    let st2 := run_job_ad_action (GuiError message) st_now in
    job_ad_text_preview st2 = message /\
    (most_suitable_cv_text st2, other_cvs_listbox st2)
    = (most_suitable_cv_text (_reset_results_area st_now), []) /\
    (self_job_ad_text_raw st2, self_job_ad_parsed_info st2, self_cv_data st2,
     self_cv_ratings st2, upload_job_ad_button st2, upload_cvs_button st2)
    = (self_job_ad_text_raw st_now, self_job_ad_parsed_info st_now,
       self_cv_data st_now, self_cv_ratings st_now,
       upload_job_ad_button st_now, upload_cvs_button st_now) /\
    match_cvs_button st2
    = (if PyStr.truthy (self_job_ad_parsed_info st_now)
          && match self_cv_data st_now with [] => false | _ :: _ => true end
       then NORMAL else DISABLED) /\
    (self_job_ad_parsed_info st_now = "" ->
     match_cvs_button st2 = DISABLED /\
     exists warning,
       _start_matching_thread st2 = (st2, Warned "Missing Job Ad" warning)).
Proof.
  intros Hpath Hrun Hblank.
  pose proof (truthy_nonempty _ Hpath) as Htruthy.
  apply strip_blank in Hblank.
  exists (set_preview (set_job_ad st "" "") ""). eexists.
  split.
  { unfold _upload_job_ad_file. rewrite Htruthy. reflexivity. }
  split; [reflexivity|]. split; [reflexivity|].
  split.
  { intros model. unfold _run_job_ad_processing, bind.
    cbn [services]. rewrite Hrun, Hblank. reflexivity. }
  split.
  { unfold _run_job_ad_processing, bind. rewrite Hrun, Hblank. reflexivity. }
  unfold run_job_ad_action, _update_job_ad_gui_error,
    _check_and_enable_match_button.
  cbn [self_job_ad_parsed_info self_cv_data set_preview set_results
       _reset_results_area].
  split; [now destruct (PyStr.truthy (self_job_ad_parsed_info st_now) && _)|].
  split; [now destruct (PyStr.truthy (self_job_ad_parsed_info st_now) && _)|].
  split; [now destruct (PyStr.truthy (self_job_ad_parsed_info st_now) && _)|].
  split; [now destruct (PyStr.truthy (self_job_ad_parsed_info st_now) && _)|].
  intros Hnone. rewrite Hnone. cbn [PyStr.truthy andb].
  split; [reflexivity|].
  unfold _start_matching_thread. cbn. rewrite Hnone. cbn.
  eexists. reflexivity.
Qed.

(** The theorem at the PDF of the examples that yields no page, when
    nothing else has run by the time of the callback. *)
Lemma blank_job_ad_leaves_no_profile_witness :
  exists message,
    _run_job_ad_processing office_app_world "cvs/torn.pdf" []
    = (Ok [GuiError message], [FitzOpen "cvs/torn.pdf"]) /\
    match_cvs_button
      (run_job_ad_action (GuiError message)
         (fst (_upload_job_ad_file loaded_app "cvs/torn.pdf")))
    = DISABLED.
Proof.
  destruct (blank_job_ad_leaves_no_profile office_app_world loaded_app
              (fst (_upload_job_ad_file loaded_app "cvs/torn.pdf"))
              "cvs/torn.pdf" [] "" [FitzOpen "cvs/torn.pdf"])
    as (st1 & message & _ & _ & _ & _ & Hthread & _ & _ & _ & _ & Hnone);
    [discriminate | reflexivity | reflexivity |].
  exists message. split; [exact Hthread|].
  now apply Hnone.
Defined.

(** X18.  A job advertisement with text gets a profile whatever the
    profile service does: its reply, a fixed sentence when it answers
    nothing, the error description when it raises.  The service is shown
    the first 6000 characters.  The thread stores the raw text itself and
    then issues the callback with the profile.  Storing the raw text
    changes nothing else.  The callback, in whatever state it runs, makes
    the profile the job profile and shows it in the preview, leaves the
    raw text, the candidates, the results area and the upload buttons of
    that state, and enables the match button exactly when the profile is
    not empty and that state has candidates; so after an exception of the
    service matching is enabled, with the error description as job
    profile. *)
Theorem job_ad_with_text_sets_the_profile
    (aw : app_world) (st st_mid st_now : JobMatcherApp) (file_path : string)
    (t : trace) (full_text : string) (t1 : trace) :
  file_path <> "" ->
  _process_document_to_text_list (services aw) (OnePath file_path) true t
  = (Ok full_text, t1) ->
  blank full_text = false ->
  exists st1 parsed,
    _upload_job_ad_file st file_path = (st1, Some file_path) /\
    (self_job_ad_text_raw st1, self_job_ad_parsed_info st1,
     job_ad_text_preview st1) = ("", "", "") /\
    parsed = match parse_job_model aw t1 (substring 0 6000 full_text) with
             | Raises e => ("Error parsing job advertisement: " ++ e)%string
             | Falsy => "Could not parse job advertisement."
             | Text p => p
             end /\
    _run_job_ad_processing aw file_path t
    = (Ok [StoreRawText full_text; GuiAfterProcessing full_text parsed], t1) /\
    run_job_ad_action (StoreRawText full_text) st_mid
    = set_job_ad st_mid full_text (self_job_ad_parsed_info st_mid) /\
    let st2 := run_job_ad_action (GuiAfterProcessing full_text parsed) st_now in
    (self_job_ad_parsed_info st2, job_ad_text_preview st2) = (parsed, parsed) /\
    (self_job_ad_text_raw st2, self_cv_data st2, self_cv_ratings st2,
     most_suitable_cv_text st2, other_cvs_listbox st2,
     upload_job_ad_button st2, upload_cvs_button st2)
    = (self_job_ad_text_raw st_now, self_cv_data st_now,
       self_cv_ratings st_now, most_suitable_cv_text st_now,
       other_cvs_listbox st_now, upload_job_ad_button st_now,
       upload_cvs_button st_now) /\
    match_cvs_button st2
    = (if PyStr.truthy parsed
          && match self_cv_data st_now with [] => false | _ :: _ => true end
       then NORMAL else DISABLED) /\
    (forall e,
       parse_job_model aw t1 (substring 0 6000 full_text) = Raises e ->
       self_cv_data st_now <> [] ->
       match_cvs_button st2 = NORMAL).
Proof.
  intros Hpath Hrun Hblank.
  pose proof (truthy_nonempty _ Hpath) as Htruthy.
  assert (Hstrip : PyStr.truthy (PyStr.strip full_text) = true).
  { destruct (PyStr.truthy (PyStr.strip full_text)) eqn:Hs; [reflexivity|].
    apply strip_blank in Hs. congruence. }
  remember (match parse_job_model aw t1 (substring 0 6000 full_text) with
            | Raises e => ("Error parsing job advertisement: " ++ e)%string
            | Falsy => "Could not parse job advertisement."
            | Text p => p
            end) as parsed eqn:Hparsed.
  exists (set_preview (set_job_ad st "" "") ""), parsed.
  split.
  { unfold _upload_job_ad_file. rewrite Htruthy. reflexivity. }
  split; [reflexivity|]. split; [reflexivity|].
  split.
  { unfold _run_job_ad_processing, bind. rewrite Hrun, Hstrip. cbn [negb].
    rewrite parse_job_advertisement_run, <- Hparsed. reflexivity. }
  split; [reflexivity|].
  unfold run_job_ad_action, _update_job_ad_gui_after_processing,
    _check_and_enable_match_button.
  cbn [self_job_ad_text_raw self_job_ad_parsed_info self_cv_data
       set_preview set_job_ad].
  split; [now destruct (PyStr.truthy parsed && _)|].
  split; [now destruct (PyStr.truthy parsed && _)|].
  split; [now destruct (PyStr.truthy parsed && _)|].
  intros e He Hcvs. rewrite He in Hparsed. rewrite Hparsed.
  cbn [PyStr.truthy append]. rewrite (nonempty_dict _ Hcvs). reflexivity.
Qed.

(** The theorem at the PDF of two pages of the examples, when nothing
    else has run between the handler, the thread and its callback. *)
Lemma job_ad_with_text_sets_the_profile_witness :
  exists parsed t1,
    _run_job_ad_processing office_app_world "cvs/bob.pdf" []
    = (Ok [StoreRawText (doc_text office_world [] "cvs/bob.pdf");
           GuiAfterProcessing (doc_text office_world [] "cvs/bob.pdf") parsed],
       t1) /\
    match_cvs_button
      (run_job_ad_action
         (GuiAfterProcessing (doc_text office_world [] "cvs/bob.pdf") parsed)
         (run_job_ad_action
            (StoreRawText (doc_text office_world [] "cvs/bob.pdf"))
            (fst (_upload_job_ad_file loaded_app "cvs/bob.pdf"))))
    = NORMAL.
Proof.
  destruct (job_ad_with_text_sets_the_profile office_app_world loaded_app
              (fst (_upload_job_ad_file loaded_app "cvs/bob.pdf"))
              (run_job_ad_action
                 (StoreRawText (doc_text office_world [] "cvs/bob.pdf"))
                 (fst (_upload_job_ad_file loaded_app "cvs/bob.pdf")))
              "cvs/bob.pdf" [] (doc_text office_world [] "cvs/bob.pdf") _
              ltac:(discriminate) eq_refl eq_refl)
    as (st1 & parsed & _ & _ & Hp & Hthread & _ & _ & _ & Hbutton & _).
  exists parsed. eexists. split; [exact Hthread|].
  rewrite Hbutton, Hp. reflexivity.
Defined.

(** ** The reply format the prompt asks for *)

Section InstructedFormat.
Import PyStr StrFacts.

Lemma find_after_skip_digits (ds rest : string) :
  all isdigit ds = true ->
  find_after "JUSTIFICATION:" (ds ++ rest) = find_after "JUSTIFICATION:" rest.
Proof.
  induction ds as [|d ds IH]; [reflexivity|].
  cbn [all]. intros H. apply andb_prop in H as [Hd Hds].
  cbn [append find_after strip_prefix].
  destruct (Ascii.eqb_spec "J"%char d) as [<-|Hne]; [discriminate Hd|].
  now apply IH.
Qed.

Lemma small_numbers_print_as_digits (n : Z) :
  (0 <= n <= 100)%Z ->
  all isdigit (py_str_int n) = true /\
  py_str_int n <> "" /\
  decimal 0 (py_str_int n) = n /\
  (length (py_str_int n) <= 3)%nat.
Proof.
  intros Hn.
  assert (Hall : forallb
                   (fun k =>
                      let s := py_str_int (Z.of_nat k) in
                      all isdigit s && truthy s
                      && Z.eqb (decimal 0 s) (Z.of_nat k)
                      && (length s <=? 3)%nat)
                   (seq 0 101) = true) by (vm_compute; reflexivity).
  rewrite forallb_forall in Hall.
  specialize (Hall (Z.to_nat n)).
  rewrite Z2Nat.id in Hall by lia.
  assert (Hin : In (Z.to_nat n) (seq 0 101)) by (apply in_seq; lia).
  apply Hall in Hin. cbv zeta in Hin.
  apply andb_prop in Hin as [Hin Hlen]. apply andb_prop in Hin as [Hin Hval].
  apply andb_prop in Hin as [Hdig Hne].
  repeat split.
  - exact Hdig.
  - intros Heq. rewrite Heq in Hne. discriminate.
  - now apply Z.eqb_eq.
  - now apply Nat.leb_le.
Qed.

End InstructedFormat.

(** X20.  A reply in the format the prompt asks for, PERCENTAGE: n% on
    one line and JUSTIFICATION: with the text on the next, is read back
    exactly: for n between 0 and 100 the score is n and the justification
    is the text stripped of white space at both ends. *)
Theorem instructed_reply_is_read_back
    (w : world) (t : trace) (job cv : string) (n : Z) (text : string) :
  (0 <= n <= 100)%Z ->
  rate_model w t job cv
  = Text ("PERCENTAGE: " ++ py_str_int n ++ "%" ++ newline
          ++ "JUSTIFICATION: " ++ text) ->
  rate_cv_suitability w job cv t
  = (Ok (n, PyStr.strip text), t ++ [RateCall job cv]).
Proof.
  intros Hn Hreply.
  destruct (small_numbers_print_as_digits n Hn) as (Hdig & Hne & Hval & Hlen).
  assert (Hs : search_percentage
                 ("PERCENTAGE: " ++ py_str_int n ++ "%" ++ newline
                  ++ "JUSTIFICATION: " ++ text)
               = Some (py_str_int n)).
  { apply search_percentage_some. exists 0%nat. split.
    - exists "", " ", (newline ++ "JUSTIFICATION: " ++ text)%string.
      repeat split; assumption.
    - intros j ds' Hj. lia. }
  assert (Hf : PyStr.find_after "JUSTIFICATION:"
                 ("PERCENTAGE: " ++ py_str_int n ++ "%" ++ newline
                  ++ "JUSTIFICATION: " ++ text)
               = Some (" " ++ text)%string).
  { cbn [append PyStr.find_after PyStr.strip_prefix Ascii.eqb Bool.eqb].
    rewrite find_after_skip_digits by assumption. reflexivity. }
  assert (Hint : py_int w (py_str_int n) = Ok n).
  { rewrite py_int_within; try assumption; [now rewrite Hval|].
    right. lia. }
  assert (Hclamp : clamp n = n) by (unfold clamp; lia).
  assert (Hstrip : PyStr.strip (PyStr.drop_while PyStr.isspace (" " ++ text))
                   = PyStr.strip text).
  { unfold PyStr.strip, PyStr.lstrip. rewrite drop_while_idem. reflexivity. }
  rewrite rate_cv_suitability_run. unfold rate_outcome. rewrite Hreply.
  unfold parse_reply, search_justification.
  rewrite Hs, Hint, Hclamp, Hf, Hstrip. reflexivity.
Qed.

(** The theorem at a service that answers 73 in the asked format. *)
Lemma instructed_reply_is_read_back_witness :
  let w := {| fitz_open := fitz_open mocked_world;
              file_read := file_read mocked_world;
              vision_model := vision_model mocked_world;
              parse_cv_model := parse_cv_model mocked_world;
              rate_model := fun _ _ _ =>
                Text ("PERCENTAGE: 73%" ++ newline
                      ++ "JUSTIFICATION:  solid match  ");
              int_max_str_digits := 0 |} in
  rate_cv_suitability w "job" "cv" []
  = (Ok (73%Z, "solid match"), [RateCall "job" "cv"]).
Proof.
  intros w.
  apply (instructed_reply_is_read_back w [] "job" "cv" 73 " solid match  ").
  - lia.
  - reflexivity.
Defined.
